(** * GPSdConnection: the gpsd streaming client of dimos_contrib/gps

    A shallow embedding of [src/dimos_contrib/gps/gpsd_connection.py]:
    the JSON values that [json.loads] hands to the decoder, the Python
    heap on which the cached reports live, the methods of the class
    [GPSdConnection] as computations in a small state/exception/trace
    monad, and the read loop [_gps_loop] iteration by iteration. *)

From Stdlib Require Import ZArith List Bool Lia.
From Stdlib Require Import Strings.String Strings.Ascii Strings.Byte.
From Stdlib Require Import Floats.SpecFloat.
From stdpp Require Import base option list gmap strings.

#[local] Set Warnings "-register-all".
#[local] Open Scope Z_scope.

(** ** Python values *)

(** A Python [str] is a sequence of Unicode code points. *)
Definition pystr := list Z.

(** An ASCII literal of the source, as a [str]. *)
Definition str (s : string) : pystr :=
  (fun a => Z.of_N (N_of_ascii a)) <$> list_ascii_of_string s.

(** The values [json.loads] builds: [None], [bool], [int], [float]
    (an IEEE binary64 value), [str], [list] and [dict]. *)
Inductive pyval :=
| PyNone
| PyBool (b : bool)
| PyInt (n : Z)
| PyFloat (f : spec_float)
| PyStr (s : pystr)
| PyList (l : list pyval)
| PyDict (d : gmap pystr pyval).

(** The exceptions that can occur in the client. All of them are
    subclasses of [Exception]; [SocketTimeout] is [socket.timeout]. *)
Inductive exn :=
| JSONDecodeError | TypeError | AttributeError | ValueError
| SocketTimeout | OSError | UnicodeDecodeError.

(** The result of running a piece of Python: a value, a raised exception,
    or [OutOfFuel] when the bound given to a [while] loop was too small. *)
Inductive outcome (A : Type) :=
| Ret (a : A)
| Raise (e : exn)
| OutOfFuel.
Arguments Ret {A} a.
Arguments Raise {A} e.
Arguments OutOfFuel {A}.

(** The result of an expression without side effects. *)
Inductive result (A : Type) :=
| Ok (a : A)
| Err (e : exn).
Arguments Ok {A} a.
Arguments Err {A} e.

(** [d.get(k, default)] on a dict. *)
Definition dict_get (d : gmap pystr pyval) (k : pystr) (default : pyval) : pyval :=
  match d !! k with
  | Some v => v
  | None => default
  end.

(** [v.get(k, default)]: only a dict has the method. *)
Definition py_get (v : pyval) (k : pystr) (default : pyval) : result pyval :=
  match v with
  | PyDict d => Ok (dict_get d k default)
  | _ => Err AttributeError
  end.

Definition is_None (v : pyval) : bool :=
  match v with
  | PyNone => true
  | _ => false
  end.

(** [v == s] for a [str] literal [s]. *)
Definition py_eq_str (v : pyval) (s : pystr) : bool :=
  match v with
  | PyStr t => bool_decide (t = s)
  | _ => false
  end.

(** The exact order between a float and an [int], as Python compares
    them; [None] for NaN, which is unordered. *)
Definition float_cmp_int (f : spec_float) (k : Z) : option comparison :=
  match f with
  | S754_nan => None
  | S754_infinity s => Some (if s then Lt else Gt)
  | S754_zero _ => Some (0 ?= k)
  | S754_finite s m e =>
      let n := if s then Z.neg m else Z.pos m in
      Some (if 0 <=? e then n * 2 ^ e ?= k else n ?= k * 2 ^ (- e))
  end.

(** [v < k] for an [int] literal [k]. *)
Definition py_lt (v : pyval) (k : Z) : result bool :=
  match v with
  | PyBool b => Ok (Z.b2z b <? k)
  | PyInt n => Ok (n <? k)
  | PyFloat f =>
      Ok (match float_cmp_int f k with Some Lt => true | _ => false end)
  | _ => Err TypeError
  end.

(** [v >= k] for an [int] literal [k]. *)
Definition py_ge (v : pyval) (k : Z) : result bool :=
  match v with
  | PyBool b => Ok (k <=? Z.b2z b)
  | PyInt n => Ok (k <=? n)
  | PyFloat f =>
      Ok (match float_cmp_int f k with Some (Eq | Gt) => true | _ => false end)
  | _ => Err TypeError
  end.

(** Truth value of a JSON value, as [if v:] tests it. *)
Definition py_truthy (v : pyval) : bool :=
  match v with
  | PyNone => false
  | PyBool b => b
  | PyInt n => negb (n =? 0)
  | PyFloat (S754_zero _) => false
  | PyFloat _ => true
  | PyStr s => negb (bool_decide (s = []))
  | PyList l => negb (Nat.eqb (length l) 0)
  | PyDict d => negb (Nat.eqb (size d) 0)
  end.

(** [len(v)]. *)
Definition py_len (v : pyval) : result Z :=
  match v with
  | PyStr s => Ok (Z.of_nat (length s))
  | PyList l => Ok (Z.of_nat (length l))
  | PyDict d => Ok (Z.of_nat (size d))
  | _ => Err TypeError
  end.

(** The items [for x in v] goes through: the elements of a list, the
    characters of a str, the keys of a dict. *)
Definition py_iter (v : pyval) : result (list pyval) :=
  match v with
  | PyStr s => Ok ((fun c => PyStr [c]) <$> s)
  | PyList l => Ok l
  | PyDict d => Ok ((fun kv => PyStr kv.1) <$> map_to_list d)
  | _ => Err TypeError
  end.

(** [sum(1 for sat in satellites if sat.get("used", False))] over the
    items of [satellites], left to right. *)
Fixpoint count_used (sats : list pyval) : result Z :=
  match sats with
  | [] => Ok 0
  | sat :: rest =>
      match py_get sat (str "used") (PyBool false) with
      | Ok u =>
          match count_used rest with
          | Ok n => Ok (if py_truthy u then 1 + n else n)
          | Err e => Err e
          end
      | Err e => Err e
      end
  end.

(** ** The heap, the client object and the trace *)

Definition addr := nat.

(** Modelled from the spec: [LatLon] is imported from
    [dimos.mapping.types], which is not among the sources. The call
    [LatLon(lat=lat, lon=lon, alt=alt)] and the uses [.lat], [.lon],
    [.alt] show a plain record of three fields (the spec's PositionReport
    [{lat, lon, alt | absent}]); it stores what it is given. *)
Inductive pyobj :=
| ObjLatLon (lat lon alt : pyval)
| ObjDict (d : gmap pystr pyval).

Inductive level := DEBUG | INFO | WARNING | ERROR.

(** The three reactive subjects of the client. *)
Inductive subject := gps_location | gps_velocity | gps_quality.

(** What the client does to the outside world. Durations of [time.sleep]
    and of [join] are in milliseconds. [OnNext subj o] is the call
    [on_next(o)] on the subject [subj]; the callbacks of the subscribers
    are not part of the client and are taken to return normally. *)
Inductive event :=
| Log (lvl : level) (msg : string)
| Sleep (ms : Z)
| SockCreate (s : nat)
| SockConnect (s : nat)
| SockSendall (s : nat) (data : pystr)
| SockClose (s : nat)
| ThreadStart (t : nat)
| ThreadJoin (t : nat) (timeout_ms : Z)
| OnNext (subj : subject) (o : addr).

(** The fields of a [GPSdConnection] ([host], [port] and [timeout] never
    change and are left out), the local variable [buffer] of the running
    [_gps_loop], the heap, and two counters that name the sockets and
    threads created so far. *)
Record world := World {
  socket : option nat;
  connected : bool;
  _running : bool;
  _thread : option nat;
  _latest_location : option addr;
  _latest_velocity : addr;
  _latest_quality : addr;
  buffer : pystr;
  heap : list pyobj;
  sockets_created : nat;
  threads_started : nat
}.

Definition set_socket (v : option nat) (w : world) : world :=
  World v (connected w) (_running w) (_thread w) (_latest_location w)
    (_latest_velocity w) (_latest_quality w) (buffer w) (heap w)
    (sockets_created w) (threads_started w).
Definition set_connected (v : bool) (w : world) : world :=
  World (socket w) v (_running w) (_thread w) (_latest_location w)
    (_latest_velocity w) (_latest_quality w) (buffer w) (heap w)
    (sockets_created w) (threads_started w).
Definition set_running (v : bool) (w : world) : world :=
  World (socket w) (connected w) v (_thread w) (_latest_location w)
    (_latest_velocity w) (_latest_quality w) (buffer w) (heap w)
    (sockets_created w) (threads_started w).
Definition set_thread (v : option nat) (w : world) : world :=
  World (socket w) (connected w) (_running w) v (_latest_location w)
    (_latest_velocity w) (_latest_quality w) (buffer w) (heap w)
    (sockets_created w) (threads_started w).
Definition set_latest_location (v : option addr) (w : world) : world :=
  World (socket w) (connected w) (_running w) (_thread w) v
    (_latest_velocity w) (_latest_quality w) (buffer w) (heap w)
    (sockets_created w) (threads_started w).
Definition set_latest_velocity (v : addr) (w : world) : world :=
  World (socket w) (connected w) (_running w) (_thread w) (_latest_location w)
    v (_latest_quality w) (buffer w) (heap w)
    (sockets_created w) (threads_started w).
Definition set_latest_quality (v : addr) (w : world) : world :=
  World (socket w) (connected w) (_running w) (_thread w) (_latest_location w)
    (_latest_velocity w) v (buffer w) (heap w)
    (sockets_created w) (threads_started w).
Definition set_buffer (v : pystr) (w : world) : world :=
  World (socket w) (connected w) (_running w) (_thread w) (_latest_location w)
    (_latest_velocity w) (_latest_quality w) v (heap w)
    (sockets_created w) (threads_started w).
Definition set_heap (v : list pyobj) (w : world) : world :=
  World (socket w) (connected w) (_running w) (_thread w) (_latest_location w)
    (_latest_velocity w) (_latest_quality w) (buffer w) v
    (sockets_created w) (threads_started w).
Definition set_sockets_created (v : nat) (w : world) : world :=
  World (socket w) (connected w) (_running w) (_thread w) (_latest_location w)
    (_latest_velocity w) (_latest_quality w) (buffer w) (heap w)
    v (threads_started w).
Definition set_threads_started (v : nat) (w : world) : world :=
  World (socket w) (connected w) (_running w) (_thread w) (_latest_location w)
    (_latest_velocity w) (_latest_quality w) (buffer w) (heap w)
    (sockets_created w) v.

(** ** The monad: state, exceptions, and the trace of events *)

Definition M (A : Type) : Type := world -> outcome A * world * list event.

Definition ret {A} (a : A) : M A := fun w => (Ret a, w, []).

Definition bind {A B} (m : M A) (k : A -> M B) : M B :=
  fun w =>
    match m w with
    | (Ret a, w1, evs1) =>
        match k a w1 with
        | (r, w2, evs2) => (r, w2, evs1 ++ evs2)
        end
    | (Raise e, w1, evs1) => (Raise e, w1, evs1)
    | (OutOfFuel, w1, evs1) => (OutOfFuel, w1, evs1)
    end.

Notation "x <- m ;; k" := (bind m (fun x => k))
  (at level 100, m at next level, k at level 200, right associativity).
Notation "m ;;; k" := (bind m (fun _ => k))
  (at level 100, k at level 200, right associativity).

(** A pure computation that may raise. *)
Definition lift {A} (r : result A) : M A :=
  fun w => (match r with Ok a => Ret a | Err e => Raise e end, w, []).

Definition emit (e : event) : M unit := fun w => (Ret tt, w, [e]).
Definition modify (f : world -> world) : M unit := fun w => (Ret tt, f w, []).
Definition gets {A} (f : world -> A) : M A := fun w => (Ret (f w), w, []).

(** [try: body except ...: handler]; [catches e] says which exceptions
    the clause names. *)
Definition try_except {A} (body : M A) (catches : exn -> bool)
    (handler : exn -> M A) : M A :=
  fun w =>
    match body w with
    | (Raise e, w1, evs1) =>
        if catches e then
          match handler e w1 with
          | (r, w2, evs2) => (r, w2, evs1 ++ evs2)
          end
        else (Raise e, w1, evs1)
    | r => r
    end.

(** A new object on the heap; its address is returned. *)
Definition alloc (o : pyobj) : M addr :=
  fun w => (Ret (length (heap w)), set_heap (heap w ++ [o]) w, []).

Definition logger (lvl : level) (msg : string) : M unit := emit (Log lvl msg).

(** ** The decoder: [_process_tpv], [_process_sky], [_process_gps_message] *)

(** The float [0.0]. *)
Definition float_zero : pyval := PyFloat (S754_zero false).

(** [x if x is not None else 0.0]. *)
Definition or_zero (x : pyval) : pyval := if is_None x then float_zero else x.

(** The dict literal of [_process_tpv]. *)
Definition velocity_dict (speed track climb : pyval) : gmap pystr pyval :=
  <[str "speed" := or_zero speed]>
    (<[str "track" := or_zero track]>
       (<[str "climb" := or_zero climb]> ∅)).

(** The dict literal of [_process_sky]. *)
Definition quality_dict (n_sats n_used : Z) (hdop vdop pdop : pyval)
    : gmap pystr pyval :=
  <[str "satellites" := PyInt n_sats]>
    (<[str "satellites_used" := PyInt n_used]>
       (<[str "hdop" := hdop]>
          (<[str "vdop" := vdop]>
             (<[str "pdop" := pdop]> ∅)))).

(** [_process_tpv(self, data)]. The lock only makes each assignment to a
    cache slot atomic; the embedding runs one method at a time. *)
Definition _process_tpv (data : gmap pystr pyval) : M unit :=
  let mode := dict_get data (str "mode") (PyInt 0) in
  below <- lift (py_lt mode 2) ;;
  if below then ret tt
  else
    let lat := dict_get data (str "lat") PyNone in
    let lon := dict_get data (str "lon") PyNone in
    fix3d <- lift (py_ge mode 3) ;;
    let alt := if fix3d then dict_get data (str "alt") PyNone else PyNone in
    (if negb (is_None lat) && negb (is_None lon) then
       o <- alloc (ObjLatLon lat lon alt) ;;
       modify (set_latest_location (Some o)) ;;;
       emit (OnNext gps_location o)
     else ret tt) ;;;
    let speed := dict_get data (str "speed") PyNone in
    let track := dict_get data (str "track") PyNone in
    let climb := dict_get data (str "climb") PyNone in
    if negb (is_None speed) || negb (is_None track) || negb (is_None climb) then
      velocity_data <- alloc (ObjDict (velocity_dict speed track climb)) ;;
      modify (set_latest_velocity velocity_data) ;;;
      emit (OnNext gps_velocity velocity_data)
    else ret tt.

(** [_process_sky(self, data)]. *)
Definition _process_sky (data : gmap pystr pyval) : M unit :=
  let satellites := dict_get data (str "satellites") (PyList []) in
  n_sats <- lift (py_len satellites) ;;
  sats <- lift (py_iter satellites) ;;
  n_used <- lift (count_used sats) ;;
  quality_data <-
    alloc (ObjDict (quality_dict n_sats n_used
                      (dict_get data (str "hdop") PyNone)
                      (dict_get data (str "vdop") PyNone)
                      (dict_get data (str "pdop") PyNone))) ;;
  modify (set_latest_quality quality_data) ;;;
  emit (OnNext gps_quality quality_data).

Section Decoder.

(** [json.loads] of the Python library: [None] when it raises
    [JSONDecodeError], the parsed value otherwise. *)
Variable json_loads : pystr -> option pyval.

Definition json_loads_or_raise (message : pystr) : result pyval :=
  match json_loads message with
  | Some v => Ok v
  | None => Err JSONDecodeError
  end.

(** The [try] block of [_process_gps_message]. *)
Definition dispatch (message : pystr) : M unit :=
  data <- lift (json_loads_or_raise message) ;;
  msg_class <- lift (py_get data (str "class") (PyStr (str ""))) ;;
  match data with
  | PyDict d =>
      if py_eq_str msg_class (str "TPV") then _process_tpv d
      else if py_eq_str msg_class (str "SKY") then _process_sky d
      else ret tt
  | _ => ret tt
  end.

(** [_process_gps_message(self, message)]: the first [except] clause
    takes [json.JSONDecodeError], the second every other [Exception]. *)
Definition _process_gps_message (message : pystr) : M unit :=
  try_except (dispatch message) (fun _ => true)
    (fun e =>
       match e with
       | JSONDecodeError => logger DEBUG "Failed to parse GPS message"
       | _ => logger ERROR "Error processing GPS message"
       end).

End Decoder.

(** [GPSdConnection.__init__]: no socket, nothing running, and the three
    cache slots: [None] and two fresh empty dicts. *)
Definition init : world :=
  {| socket := None; connected := false; _running := false; _thread := None;
     _latest_location := None; _latest_velocity := 0%nat; _latest_quality := 1%nat;
     buffer := []; heap := [ObjDict ∅; ObjDict ∅];
     sockets_created := 0; threads_started := 0 |}.

(** The reports a trace delivers to the subscribers: each [on_next] with
    the object it passes, read in the heap [h]. *)
Definition report_of (h : list pyobj) (e : event) : option (subject * pyobj) :=
  match e with
  | OnNext subj o => pair subj <$> h !! o
  | _ => None
  end.

Definition delivered (h : list pyobj) (evs : list event) : list (subject * pyobj) :=
  omap (report_of h) evs.

(** A literal of the source that contains double quotes, written with an
    apostrophe in the place of each of them. *)
Definition quoted (s : string) : pystr :=
  (fun c => if c =? 39 then 34 else c) <$> str s.

(** The line feed. *)
Definition NL : Z := 10.

(** ** Bytes and text *)

Definition byte_val (b : byte) : Z := Z.of_N (Byte.to_N b).

Definition in_range (lo hi x : Z) : bool := (lo <=? x) && (x <=? hi).

(** A continuation byte, [10xxxxxx]. *)
Definition is_cont (x : Z) : bool := in_range 128 191 x.

(** [bs.decode("utf-8")], strict: [None] stands for [UnicodeDecodeError].
    Overlong forms, surrogates and code points above U+10FFFF are
    refused, as is a sequence cut short by the end of the input. *)
Fixpoint utf8_decode (bs : list byte) : option pystr :=
  match bs with
  | [] => Some []
  | b0 :: r0 =>
      let x0 := byte_val b0 in
      if x0 <? 128 then cons x0 <$> utf8_decode r0
      else if in_range 194 223 x0 then
        match r0 with
        | b1 :: r1 =>
            let x1 := byte_val b1 in
            if is_cont x1
            then cons ((x0 - 192) * 64 + (x1 - 128)) <$> utf8_decode r1
            else None
        | _ => None
        end
      else if in_range 224 239 x0 then
        match r0 with
        | b1 :: b2 :: r2 =>
            let x1 := byte_val b1 in
            let x2 := byte_val b2 in
            if in_range (if x0 =? 224 then 160 else 128)
                        (if x0 =? 237 then 159 else 191) x1
               && is_cont x2
            then cons ((x0 - 224) * 4096 + (x1 - 128) * 64 + (x2 - 128))
                   <$> utf8_decode r2
            else None
        | _ => None
        end
      else if in_range 240 244 x0 then
        match r0 with
        | b1 :: b2 :: b3 :: r3 =>
            let x1 := byte_val b1 in
            let x2 := byte_val b2 in
            let x3 := byte_val b3 in
            if in_range (if x0 =? 240 then 144 else 128)
                        (if x0 =? 244 then 143 else 191) x1
               && is_cont x2 && is_cont x3
            then cons ((x0 - 240) * 262144 + (x1 - 128) * 4096
                       + (x2 - 128) * 64 + (x3 - 128))
                   <$> utf8_decode r3
            else None
        | _ => None
        end
      else None
  end.

(** [c.isspace()] for a code point. *)
Definition py_isspace (c : Z) : bool :=
  in_range 9 13 c || in_range 28 32 c || (c =? 133) || (c =? 160)
  || (c =? 5760) || in_range 8192 8202 c || (c =? 8232) || (c =? 8233)
  || (c =? 8239) || (c =? 8287) || (c =? 12288).

Fixpoint lstrip (s : pystr) : pystr :=
  match s with
  | [] => []
  | c :: r => if py_isspace c then lstrip r else s
  end.

(** [s.strip()]. *)
Definition str_strip (s : pystr) : pystr := rev (lstrip (rev (lstrip s))).

(** Truth value of a [str]: it is not empty. *)
Definition str_truthy (s : pystr) : bool :=
  match s with
  | [] => false
  | _ => true
  end.

(** ["\n" in s]. *)
Definition contains_nl (s : pystr) : bool := existsb (Z.eqb NL) s.

(** [s.split("\n", 1)]: the text before the first line feed and the text
    after it; [None] when there is no line feed (the list then has one
    element, and unpacking it into two names raises [ValueError]). *)
Fixpoint split1 (s : pystr) : option (pystr * pystr) :=
  match s with
  | [] => None
  | c :: r =>
      if c =? NL then Some ([], r)
      else (fun lr : pystr * pystr => (c :: lr.1, lr.2)) <$> split1 r
  end.

(** ** The environment *)

(** What [self.socket.recv(4096)] does: it times out, fails, or returns
    bytes (none when the peer has closed). *)
Inductive recv_result :=
| RecvTimeout
| RecvError
| RecvData (bs : list byte).

(** How far [connect] gets: [socket.socket] fails, [connect] fails,
    [sendall] fails, or all three succeed. *)
Inductive connect_result :=
| SocketFailed
| ConnectFailed
| SendallFailed
| ConnectOk.

(** ['?WATCH={"enable":true,"json":true}\n']. *)
Definition watch_cmd : pystr := quoted "?WATCH={'enable':true,'json':true}" ++ [NL].

Definition socket_socket (c : connect_result) : M nat :=
  match c with
  | SocketFailed => lift (Err OSError)
  | _ =>
      s <- gets sockets_created ;;
      modify (set_sockets_created (S s)) ;;;
      emit (SockCreate s) ;;;
      ret s
  end.

Definition socket_connect (c : connect_result) (s : nat) : M unit :=
  match c with
  | ConnectFailed => lift (Err OSError)
  | _ => emit (SockConnect s)
  end.

Definition socket_sendall (c : connect_result) (s : nat) (data : pystr) : M unit :=
  match c with
  | SendallFailed => lift (Err OSError)
  | _ => emit (SockSendall s data)
  end.

Definition socket_close (close_ok : bool) (s : nat) : M unit :=
  if close_ok then emit (SockClose s) else lift (Err OSError).

(** [self.socket.recv(4096).decode("utf-8")]: each read is decoded on its
    own, before it is added to the buffer. *)
Definition recv_decode (r : recv_result) : result pystr :=
  match r with
  | RecvTimeout => Err SocketTimeout
  | RecvError => Err OSError
  | RecvData bs =>
      match utf8_decode bs with
      | Some s => Ok s
      | None => Err UnicodeDecodeError
      end
  end.

(** ** Connection and streaming *)

(** [connect(self)]. *)
Definition connect (c : connect_result) : M bool :=
  try_except
    (logger INFO "Connecting to gpsd" ;;;
     s <- socket_socket c ;;
     modify (set_socket (Some s)) ;;;
     socket_connect c s ;;;
     socket_sendall c s watch_cmd ;;;
     modify (set_connected true) ;;;
     logger INFO "Connected to gpsd" ;;;
     ret true)
    (fun _ => true)
    (fun _ =>
       logger ERROR "Failed to connect to gpsd" ;;;
       modify (set_connected false) ;;;
       ret false).

(** [disconnect(self)]. *)
Definition disconnect (close_ok : bool) : M unit :=
  modify (set_connected false) ;;;
  sock <- gets socket ;;
  match sock with
  | Some s =>
      try_except (socket_close close_ok s) (fun _ => true)
        (fun _ => logger WARNING "Error closing socket") ;;;
      modify (set_socket None)
  | None => ret tt
  end ;;;
  logger INFO "Disconnected from gpsd".

(** [start_streaming(self)]. The new thread is named by the counter; it
    enters [_gps_loop] on its own. *)
Definition start_streaming (c : connect_result) : M bool :=
  running <- gets _running ;;
  if running then
    logger WARNING "GPS streaming already running" ;;;
    ret true
  else
    is_connected <- gets connected ;;
    ok <- (if is_connected then ret true else connect c) ;;
    if negb ok then ret false
    else
      modify (set_running true) ;;;
      t <- gets threads_started ;;
      modify (set_threads_started (S t)) ;;;
      modify (set_thread (Some t)) ;;;
      emit (ThreadStart t) ;;;
      logger INFO "Started GPS streaming thread" ;;;
      ret true.

(** [stop_streaming(self)]; [alive] is what [is_alive()] answers. *)
Definition stop_streaming (alive close_ok : bool) : M unit :=
  modify (set_running false) ;;;
  t <- gets _thread ;;
  match t with
  | Some t => if alive then emit (ThreadJoin t 2000) else ret tt
  | None => ret tt
  end ;;;
  disconnect close_ok ;;;
  logger INFO "Stopped GPS streaming".

(** ** The cache accessors *)

(** [get_latest_location]: the reference held by the slot. *)
Definition get_latest_location : M (option addr) := gets _latest_location.

(** [d.copy()] of the dict at [a]: a new dict with the same items. The
    slots it is called on always hold a dict. *)
Definition dict_copy (a : addr) : M addr :=
  fun w =>
    match heap w !! a with
    | Some (ObjDict d) => alloc (ObjDict d) w
    | _ => (Raise AttributeError, w, [])
    end.

(** [get_latest_velocity]. *)
Definition get_latest_velocity : M addr :=
  a <- gets _latest_velocity ;;
  dict_copy a.

(** [get_latest_quality]. *)
Definition get_latest_quality : M addr :=
  a <- gets _latest_quality ;;
  dict_copy a.

(** What a caller can do with a dict it holds: [d[k] = v] on the object
    at [a]. *)
Definition dict_setitem (a : addr) (k : pystr) (v : pyval) (h : list pyobj)
    : list pyobj :=
  match h !! a with
  | Some (ObjDict d) => <[a := ObjDict (<[k := v]> d)]> h
  | _ => h
  end.

(** ** The read loop *)

Section ReadLoop.

Variable json_loads : pystr -> option pyval.

(** The inner loop of [_gps_loop]:
    [while "\n" in buffer: line, buffer = buffer.split("\n", 1); ...].
    [fuel] bounds the number of passes. *)
Fixpoint process_buffer (fuel : nat) : M unit :=
  match fuel with
  | O => fun w => (OutOfFuel, w, [])
  | S fuel' =>
      buf <- gets buffer ;;
      if contains_nl buf then
        match split1 buf with
        | Some (line, rest) =>
            modify (set_buffer rest) ;;;
            (if str_truthy (str_strip line)
             then _process_gps_message json_loads line
             else ret tt) ;;;
            process_buffer fuel'
        | None => lift (Err ValueError)
        end
      else ret tt
  end.

(** The [try] around the read: [Some data] when the read succeeded,
    [None] when a handler ran and ended in [continue]. *)
Definition read_socket (r : recv_result) (c : connect_result) : M (option pystr) :=
  try_except
    (data <- lift (recv_decode r) ;; ret (Some data))
    (fun _ => true)
    (fun e =>
       match e with
       | SocketTimeout => ret None
       | _ =>
           logger WARNING "Socket read error" ;;;
           running <- gets _running ;;
           (if running then
              emit (Sleep 500) ;;;
              ok <- connect c ;;
              if negb ok then emit (Sleep 5000) else ret tt
            else ret tt) ;;;
           ret None
       end).

(** One pass through the body of [while self._running:], for what the
    socket and a reconnection attempt answer in this pass. The inner
    loop shortens the buffer each time round, so the length of the
    buffer plus one is fuel enough for it. *)
Definition _gps_loop_body (r : recv_result) (c : connect_result) : M unit :=
  try_except
    (sock <- gets socket ;;
     match sock with
     | None =>
         logger ERROR "Socket is None in GPS loop" ;;;
         emit (Sleep 1000)
     | Some _ =>
         received <- read_socket r c ;;
         match received with
         | None => ret tt
         | Some data =>
             if negb (str_truthy data) then
               logger WARNING "No data from gpsd, reconnecting..." ;;;
               emit (Sleep 1000) ;;;
               ok <- connect c ;;
               if negb ok then emit (Sleep 5000) else ret tt
             else
               buf <- gets buffer ;;
               modify (set_buffer (buf ++ data)) ;;;
               process_buffer (S (length (buf ++ data)))
         end
     end)
    (fun _ => true)
    (fun _ =>
       logger ERROR "Error in GPS loop" ;;;
       emit (Sleep 1000)).

(** [_gps_loop] from the loop head on, against the answers the
    environment gives in the successive passes. *)
Fixpoint _gps_loop_from (inputs : list (recv_result * connect_result)) : M unit :=
  match inputs with
  | [] => ret tt
  | (r, c) :: rest =>
      running <- gets _running ;;
      if running then
        _gps_loop_body r c ;;;
        _gps_loop_from rest
      else ret tt
  end.

(** [_gps_loop(self)]: it starts with an empty buffer. *)
Definition _gps_loop (inputs : list (recv_result * connect_result)) : M unit :=
  modify (set_buffer []) ;;;
  _gps_loop_from inputs.

(** ** The operations on a client, one at a time *)

(** The calls a client receives and the steps of its loop thread:
    [LoopEnter] is the start of [_gps_loop] in a new thread, [LoopPass]
    one test of [self._running] and, when it is set, one pass through
    the body. The parameters are the answers of the environment. *)
Inductive op :=
| Connect (c : connect_result)
| Disconnect (close_ok : bool)
| StartStreaming (c : connect_result)
| StopStreaming (alive close_ok : bool)
| LoopEnter
| LoopPass (r : recv_result) (c : connect_result)
| GetLatestLocation
| GetLatestVelocity
| GetLatestQuality.

(** A call whose result is not used. *)
Definition forget {A} (m : M A) : M unit := m ;;; ret tt.

Definition exec (o : op) : M unit :=
  match o with
  | Connect c => forget (connect c)
  | Disconnect close_ok => disconnect close_ok
  | StartStreaming c => forget (start_streaming c)
  | StopStreaming alive close_ok => stop_streaming alive close_ok
  | LoopEnter => modify (set_buffer [])
  | LoopPass r c =>
      running <- gets _running ;;
      if running then _gps_loop_body r c else ret tt
  | GetLatestLocation => forget get_latest_location
  | GetLatestVelocity => forget get_latest_velocity
  | GetLatestQuality => forget get_latest_quality
  end.

(** A sequence of operations, in order. *)
Fixpoint run (ops : list op) : M unit :=
  match ops with
  | [] => ret tt
  | o :: rest => exec o ;;; run rest
  end.

End ReadLoop.

(** The complete lines of a text and the partial line after the last line
    feed. *)
Fixpoint lines_rem (s : pystr) : list pystr * pystr :=
  match s with
  | [] => ([], [])
  | c :: r =>
      let (ls, rem) := lines_rem r in
      if c =? NL then ([] :: ls, rem)
      else
        match ls with
        | [] => ([], c :: rem)
        | l :: ls' => ((c :: l) :: ls', rem)
        end
  end.

(** ** The decoder as a function of the line *)

(** The spec's FrameDecoder, for comparison with the methods above: what
    a TPV object, a SKY object and a line decode to, as values. *)

Definition report : Type := subject * pyobj.

Definition decode_tpv (data : gmap pystr pyval) : result (list report) :=
  let mode := dict_get data (str "mode") (PyInt 0) in
  let lat := dict_get data (str "lat") PyNone in
  let lon := dict_get data (str "lon") PyNone in
  let alt := dict_get data (str "alt") PyNone in
  let speed := dict_get data (str "speed") PyNone in
  let track := dict_get data (str "track") PyNone in
  let climb := dict_get data (str "climb") PyNone in
  match py_lt mode 2 with
  | Err e => Err e
  | Ok true => Ok []
  | Ok false =>
      match py_ge mode 3 with
      | Err e => Err e
      | Ok fix3d =>
          Ok ((if negb (is_None lat) && negb (is_None lon)
               then [(gps_location,
                      ObjLatLon lat lon (if fix3d then alt else PyNone))]
               else [])
              ++
              (if negb (is_None speed) || negb (is_None track)
                  || negb (is_None climb)
               then [(gps_velocity, ObjDict (velocity_dict speed track climb))]
               else []))
      end
  end.

Definition decode_sky (data : gmap pystr pyval) : result (list report) :=
  let satellites := dict_get data (str "satellites") (PyList []) in
  match py_len satellites with
  | Err e => Err e
  | Ok n_sats =>
      match py_iter satellites with
      | Err e => Err e
      | Ok sats =>
          match count_used sats with
          | Err e => Err e
          | Ok n_used =>
              Ok [(gps_quality,
                   ObjDict (quality_dict n_sats n_used
                              (dict_get data (str "hdop") PyNone)
                              (dict_get data (str "vdop") PyNone)
                              (dict_get data (str "pdop") PyNone)))]
          end
      end
  end.

Definition log_parse_failure : event := Log DEBUG "Failed to parse GPS message".
Definition log_processing_error : event := Log ERROR "Error processing GPS message".

(** What [_process_gps_message] logs for an exception. *)
Definition failure_log (e : exn) : event :=
  match e with
  | JSONDecodeError => log_parse_failure
  | _ => log_processing_error
  end.

(** The reports of a line and what it logs. *)
Definition decode_line (json_loads : pystr -> option pyval) (line : pystr)
    : list report * list event :=
  match json_loads line with
  | None => ([], [log_parse_failure])
  | Some (PyDict d) =>
      let msg_class := dict_get d (str "class") (PyStr (str "")) in
      let decoded :=
        if py_eq_str msg_class (str "TPV") then decode_tpv d
        else if py_eq_str msg_class (str "SKY") then decode_sky d
        else Ok [] in
      match decoded with
      | Ok rs => (rs, [])
      | Err e => ([], [failure_log e])
      end
  | Some _ => ([], [log_processing_error])
  end.

(** The slot of each kind of report. *)
Definition set_slot (subj : subject) (o : addr) : world -> world :=
  match subj with
  | gps_location => set_latest_location (Some o)
  | gps_velocity => set_latest_velocity o
  | gps_quality => set_latest_quality o
  end.

(** The world after a list of reports has been produced: each is a new
    object, and the slot of its kind refers to it. *)
Fixpoint published (rs : list report) (w : world) : world :=
  match rs with
  | [] => w
  | (subj, o) :: rest =>
      published rest (set_slot subj (length (heap w)) (set_heap (heap w ++ [o]) w))
  end.

(** The deliveries of a list of reports created on top of the heap [h]. *)
Fixpoint published_events (rs : list report) (h : list pyobj) : list event :=
  match rs with
  | [] => []
  | (subj, o) :: rest => OnNext subj (length h) :: published_events rest (h ++ [o])
  end.

(** A line that is not blank, as [if line.strip():] tests it. *)
Definition nonblank (line : pystr) : bool := str_truthy (str_strip line).

(** ** Vocabulary of the statements *)

(** An entry of [satellites] as gpsd sends it: an object whose [used],
    when there, is a boolean. *)
Definition sat_entry (sat : pyval) : Prop :=
  exists d, sat = PyDict d /\
    (d !! str "used" = None \/ exists b, d !! str "used" = Some (PyBool b)).

(** The entry has [used == true]. *)
Definition used_true (sat : pyval) : bool :=
  match sat with
  | PyDict d =>
      match d !! str "used" with
      | Some (PyBool true) => true
      | _ => false
      end
  | _ => false
  end.

(** A slot holds "none": [None] for the location, the empty dict for the
    velocity and for the quality. *)
Definition slot_none (subj : subject) (w : world) : Prop :=
  match subj with
  | gps_location => _latest_location w = None
  | gps_velocity => heap w !! _latest_velocity w = Some (ObjDict ∅)
  | gps_quality => heap w !! _latest_quality w = Some (ObjDict ∅)
  end.

(** ** The data path of the loop as a function *)

(** What one complete line contributes: the reports and the logs of its
    decoding, nothing for a blank line. *)
Definition line_effect (json_loads : pystr -> option pyval) (line : pystr)
    : list report * list event :=
  if nonblank line then decode_line json_loads line else ([], []).

(** The world and the trace after a sequence of such contributions. *)
Fixpoint apply_steps (steps : list (list report * list event)) (w : world)
    : world * list event :=
  match steps with
  | [] => (w, [])
  | (rs, logs) :: rest =>
      let (w', evs) := apply_steps rest (published rs w) in
      (w', published_events rs (heap w) ++ logs ++ evs)
  end.

(** Receiving the text [data]: the complete lines of [buffer + data] are
    decoded in order and the partial line after them stays in the
    buffer. *)
Definition feed (json_loads : pystr -> option pyval) (data : pystr) (w : world)
    : world * list event :=
  apply_steps (line_effect json_loads <$> (lines_rem (buffer w ++ data)).1)
    (set_buffer (lines_rem (buffer w ++ data)).2 w).

(** The reference a slot holds. *)
Definition slot_addr (subj : subject) (w : world) : option addr :=
  match subj with
  | gps_location => _latest_location w
  | gps_velocity => Some (_latest_velocity w)
  | gps_quality => Some (_latest_quality w)
  end.

(** The objects the decoder produces for each kind of report: a
    [LatLon], and dicts that are not empty. *)
Definition proper (subj : subject) (o : pyobj) : Prop :=
  match subj, o with
  | gps_location, ObjLatLon _ _ _ => True
  | gps_velocity, ObjDict d => d <> ∅
  | gps_quality, ObjDict d => d <> ∅
  | _, _ => False
  end.

(** An event that delivers a report to the subscribers. *)
Definition is_delivery (e : event) : bool :=
  match e with
  | OnNext _ _ => true
  | _ => false
  end.

(** A step that leaves the buffer and the slots alone, only adds objects
    to the heap and delivers nothing. *)
Definition quiet_step (w w' : world) (evs : list event) : Prop :=
  buffer w' = buffer w /\
  _latest_location w' = _latest_location w /\
  _latest_velocity w' = _latest_velocity w /\
  _latest_quality w' = _latest_quality w /\
  (exists new, heap w' = heap w ++ new) /\
  Forall (fun e => is_delivery e = false) evs.

(** What a step does to a slot: it leaves the reference alone and
    delivers no report of that kind, or the slot now refers to an object
    of its kind that the step has delivered. *)
Definition slot_step (subj : subject) (w w' : world) (evs : list event) : Prop :=
  (slot_addr subj w' = slot_addr subj w /\
   forall a, ~ In (OnNext subj a) evs)
  \/
  (exists a o,
     slot_addr subj w' = Some a /\
     heap w' !! a = Some o /\
     proper subj o /\
     In (OnNext subj a) evs).

(** The state of a slot after the trace [evs] of a client: it holds
    "none" and no report of its kind has been delivered, or it refers to
    an object of its kind that has been delivered. *)
Definition slot_inv (subj : subject) (w : world) (evs : list event) : Prop :=
  (slot_none subj w /\
   forall a, ~ In (OnNext subj a) evs)
  \/
  (exists a o,
     slot_addr subj w = Some a /\
     heap w !! a = Some o /\
     proper subj o /\
     In (OnNext subj a) evs).

(** The slots refer to objects of their kind. *)
Definition well_formed (w : world) : Prop :=
  (forall a, _latest_location w = Some a ->
     exists lat lon alt, heap w !! a = Some (ObjLatLon lat lon alt)) /\
  (exists d, heap w !! _latest_velocity w = Some (ObjDict d)) /\
  (exists d, heap w !! _latest_quality w = Some (ObjDict d)).

(** A pass of the loop that finds the connection lost: a read error (or
    bytes that do not decode) or a read of no bytes. *)
Definition lost_connection (r : recv_result) : Prop :=
  match recv_decode r with
  | Ok data => data = []
  | Err e => e <> SocketTimeout
  end.

(** The reconnection attempts in a trace. *)
Definition is_connect_attempt (e : event) : bool :=
  match e with
  | Log INFO msg => bool_decide (msg = "Connecting to gpsd"%string)
  | _ => false
  end.

Definition connect_attempts (evs : list event) : nat :=
  length (List.filter is_connect_attempt evs).

Definition is_close (e : event) : bool :=
  match e with
  | SockClose _ => true
  | _ => false
  end.

(** ** What [connect] does, case by case *)

Definition connect_ok (c : connect_result) : bool :=
  match c with
  | ConnectOk => true
  | _ => false
  end.

(** The new socket replaces the old one in [self.socket] as soon as it is
    created; the old one is not closed. *)
Definition connect_world (c : connect_result) (w : world) : world :=
  match c with
  | SocketFailed => set_connected false w
  | ConnectFailed | SendallFailed =>
      set_connected false
        (set_socket (Some (sockets_created w))
           (set_sockets_created (S (sockets_created w)) w))
  | ConnectOk =>
      set_connected true
        (set_socket (Some (sockets_created w))
           (set_sockets_created (S (sockets_created w)) w))
  end.

Definition connect_events (c : connect_result) (w : world) : list event :=
  let s := sockets_created w in
  Log INFO "Connecting to gpsd" ::
  match c with
  | SocketFailed => [Log ERROR "Failed to connect to gpsd"]
  | ConnectFailed => [SockCreate s; Log ERROR "Failed to connect to gpsd"]
  | SendallFailed =>
      [SockCreate s; SockConnect s; Log ERROR "Failed to connect to gpsd"]
  | ConnectOk =>
      [SockCreate s; SockConnect s; SockSendall s watch_cmd;
       Log INFO "Connected to gpsd"]
  end.

(** The trace of a reconnection after the delay [ms]: the wait, the
    attempt, and the longer wait when the attempt fails. *)
Definition reconnect_events (ms : Z) (c : connect_result) (w : world) : list event :=
  Sleep ms :: connect_events c w ++ (if connect_ok c then [] else [Sleep 5000]).

(** The bytes of an ASCII literal of the source, an apostrophe standing
    for each double quote. *)
Definition bytes_quoted (s : string) : list byte :=
  (fun b => if Byte.eqb b x27 then x22 else b) <$> list_byte_of_string s.

(** ** Sample messages *)

Module Sample.

Definition f37_5 : pyval := PyFloat (S754_finite false 5277655813324800 (-47)).
Definition fm122_3 : pyval := PyFloat (S754_finite true 8606097412928307 (-46)).
Definition f10_0 : pyval := PyFloat (S754_finite false 5629499534213120 (-49)).
Definition f1_2 : pyval := PyFloat (S754_finite false 5404319552844595 (-52)).
Definition f90_0 : pyval := PyFloat (S754_finite false 6333186975989760 (-46)).
Definition f1_1 : pyval := PyFloat (S754_finite false 4953959590107546 (-52)).

(** A TPV line with a 3D fix, and the dict [json.loads] builds from it. *)
Definition tpv_line : pystr :=
  quoted "{'class':'TPV','mode':3,'lat':37.5,'lon':-122.3,'alt':10.0,'speed':1.2,'track':90.0}".
Definition tpv : gmap pystr pyval :=
  <[str "class" := PyStr (str "TPV")]>
    (<[str "mode" := PyInt 3]>
       (<[str "lat" := f37_5]>
          (<[str "lon" := fm122_3]>
             (<[str "alt" := f10_0]>
                (<[str "speed" := f1_2]>
                   (<[str "track" := f90_0]> ∅)))))).

(** A TPV line without a fix. *)
Definition tpv_nofix_line : pystr :=
  quoted "{'class':'TPV','mode':1,'lat':37.5,'lon':-122.3,'speed':1.2}".
Definition tpv_nofix : gmap pystr pyval :=
  <[str "class" := PyStr (str "TPV")]>
    (<[str "mode" := PyInt 1]>
       (<[str "lat" := f37_5]>
          (<[str "lon" := fm122_3]>
             (<[str "speed" := f1_2]> ∅)))).

(** A TPV line whose latitude is a string. *)
Definition tpv_badlat_line : pystr :=
  quoted "{'class':'TPV','mode':3,'lat':'abc','lon':-122.3,'speed':1.2}".
Definition tpv_badlat : gmap pystr pyval :=
  <[str "class" := PyStr (str "TPV")]>
    (<[str "mode" := PyInt 3]>
       (<[str "lat" := PyStr (str "abc")]>
          (<[str "lon" := fm122_3]>
             (<[str "speed" := f1_2]> ∅)))).

(** A SKY line with three satellites, two of them used. *)
Definition sky_line : pystr :=
  quoted "{'class':'SKY','satellites':[{'used':true},{'used':true},{'used':false}],'hdop':1.1}".
Definition sat (used : bool) : pyval :=
  PyDict (<[str "used" := PyBool used]> ∅).
Definition sky : gmap pystr pyval :=
  <[str "class" := PyStr (str "SKY")]>
    (<[str "satellites" := PyList [sat true; sat true; sat false]]>
       (<[str "hdop" := f1_1]> ∅)).

(** Text that is not JSON. *)
Definition garbage_line : pystr := str "not json".

(** A TPV line with a character outside ASCII, U+00E9, which UTF-8
    writes as the two bytes C3 A9. *)
Definition tpv_utf8_head : string := "{'class':'TPV','tag':'".
Definition tpv_utf8_tail : string := "','mode':2,'lat':37.5,'lon':-122.3}".
Definition tpv_utf8_line : pystr :=
  quoted tpv_utf8_head ++ [233] ++ quoted tpv_utf8_tail.
Definition tpv_utf8 : gmap pystr pyval :=
  <[str "class" := PyStr (str "TPV")]>
    (<[str "tag" := PyStr [233]]>
       (<[str "mode" := PyInt 2]>
          (<[str "lat" := f37_5]>
             (<[str "lon" := fm122_3]> ∅)))).

(** The bytes of that line and its line feed, in two reads that part
    between C3 and A9. *)
Definition utf8_read1 : list byte := bytes_quoted tpv_utf8_head ++ [xc3].
Definition utf8_read2 : list byte := [xa9] ++ bytes_quoted tpv_utf8_tail ++ [x0a].

(** The malformed text, a line feed, and the TPV line with its line feed,
    in one read. *)
Definition garbage_then_tpv : list byte :=
  list_byte_of_string "not json" ++ [x0a]
  ++ bytes_quoted "{'class':'TPV','mode':3,'lat':37.5,'lon':-122.3,'alt':10.0,'speed':1.2,'track':90.0}"
  ++ [x0a].
Definition tpv_read : list byte :=
  bytes_quoted "{'class':'TPV','mode':3,'lat':37.5,'lon':-122.3,'alt':10.0,'speed':1.2,'track':90.0}"
  ++ [x0a].

(** The bytes of [tpv_line] and its line feed, in three reads. *)
Definition tpv_read1 : list byte := bytes_quoted "{'class':'TPV','mo".
Definition tpv_read2 : list byte :=
  bytes_quoted "de':3,'lat':37.5,'lon':-122.3,'alt':10.0,'spe".
Definition tpv_read3 : list byte := bytes_quoted "ed':1.2,'track':90.0}" ++ [x0a].

(** [json.loads] on the sample lines; any other text counts as
    malformed here. *)
Definition json_loads (message : pystr) : option pyval :=
  if bool_decide (message = tpv_line) then Some (PyDict tpv)
  else if bool_decide (message = tpv_nofix_line) then Some (PyDict tpv_nofix)
  else if bool_decide (message = tpv_badlat_line) then Some (PyDict tpv_badlat)
  else if bool_decide (message = sky_line) then Some (PyDict sky)
  else if bool_decide (message = tpv_utf8_line) then Some (PyDict tpv_utf8)
  else None.

(** A client that is streaming: [start_streaming] has succeeded on a new
    client. *)
Definition streaming : world := (start_streaming ConnectOk init).1.2.

(** The streaming client after a read of the whole TPV line: it has a
    fix. *)
Definition with_fix : world :=
  (_gps_loop_body json_loads (RecvData tpv_read) ConnectOk streaming).1.2.

(** The streaming client after the first of the three reads of the TPV
    line: the buffer holds the beginning of the line. *)
Definition with_partial_line : world :=
  (_gps_loop_body json_loads (RecvData tpv_read1) ConnectOk streaming).1.2.

End Sample.


(** ** Vocabulary of the further properties *)

(** The reports a complete line yields. *)
Definition line_reports (json_loads : pystr -> option pyval) (line : pystr)
    : list report :=
  (line_effect json_loads line).1.

(** Every delivery in the trace passes an object that is on the heap. *)
Definition valid_trace (h : list pyobj) (evs : list event) : Prop :=
  Forall (fun e =>
            match e with
            | OnNext _ o => (o < length h)%nat
            | _ => True
            end) evs.

Definition subject_eqb (s1 s2 : subject) : bool :=
  match s1, s2 with
  | gps_location, gps_location => true
  | gps_velocity, gps_velocity => true
  | gps_quality, gps_quality => true
  | _, _ => false
  end.

(** The object passed by the last delivery of a kind, if there is one. *)
Fixpoint last_delivery (subj : subject) (evs : list event) : option addr :=
  match evs with
  | [] => None
  | e :: rest =>
      match last_delivery subj rest with
      | Some o => Some o
      | None =>
          match e with
          | OnNext s o => if subject_eqb s subj then Some o else None
          | _ => None
          end
      end
  end.

(** The reference a slot holds after a trace, when it held [old]
    before. *)
Definition slot_after (subj : subject) (evs : list event) (old : option addr)
    : option addr :=
  match last_delivery subj evs with
  | Some o => Some o
  | None => old
  end.

(** The shape of the reports the decoder produces: a position has a
    latitude and a longitude; a velocity dict has exactly the keys
    [speed], [track], [climb], none of them [None]; a quality dict has
    the two counts, with [0 <= satellites_used <= satellites], and the
    keys [hdop], [vdop], [pdop], whose values may be [None]. *)
Definition shaped (r : report) : Prop :=
  match r with
  | (gps_location, ObjLatLon lat lon _) => is_None lat = false /\ is_None lon = false
  | (gps_velocity, ObjDict d) =>
      size d = 3%nat /\
      (exists v, d !! str "speed" = Some v /\ is_None v = false) /\
      (exists v, d !! str "track" = Some v /\ is_None v = false) /\
      (exists v, d !! str "climb" = Some v /\ is_None v = false)
  | (gps_quality, ObjDict d) =>
      size d = 5%nat /\
      (exists n u,
         d !! str "satellites" = Some (PyInt n) /\
         d !! str "satellites_used" = Some (PyInt u) /\
         0 <= u <= n) /\
      is_Some (d !! str "hdop") /\
      is_Some (d !! str "vdop") /\
      is_Some (d !! str "pdop")
  | _ => False
  end.

(** Bytes below 128. *)
Definition is_ascii (bs : list byte) : Prop := Forall (fun b => byte_val b < 128) bs.

Definition is_create (e : event) : bool :=
  match e with
  | SockCreate _ => true
  | _ => false
  end.

(** An event on a socket. *)
Definition is_socket_event (e : event) : bool :=
  match e with
  | SockCreate _ | SockConnect _ | SockSendall _ _ | SockClose _ => true
  | _ => false
  end.

Definition count_events (p : event -> bool) (evs : list event) : nat :=
  length (List.filter p evs).

(** The socket calls [connect] gets through before it fails or
    succeeds. *)
Definition creates_socket (c : connect_result) : bool :=
  match c with
  | SocketFailed => false
  | _ => true
  end.

(** The object of the last report of a kind in a list of reports. *)
Fixpoint last_report (subj : subject) (rs : list report) : option pyobj :=
  match rs with
  | [] => None
  | (s, o) :: rest =>
      match last_report subj rest with
      | Some o' => Some o'
      | None => if subject_eqb s subj then Some o else None
      end
  end.

(** The object a slot refers to. *)
Definition slot_object (subj : subject) (w : world) : option pyobj :=
  slot_addr subj w ≫= fun o => heap w !! o.

(** The socket an event is about. *)
Definition socket_of (e : event) : option nat :=
  match e with
  | SockCreate s | SockConnect s | SockSendall s _ | SockClose s => Some s
  | _ => None
  end.

(** The socket calls of a trace. *)
Definition socket_events (evs : list event) : list event :=
  List.filter is_socket_event evs.

(** The socket call of [disconnect]: the socket is closed when there is
    one and [close] does not fail. *)
Definition close_events (close_ok : bool) (w : world) : list event :=
  match socket w with
  | Some s => if close_ok then [SockClose s] else []
  | None => []
  end.

(** What a step does to the connection: nothing, what [connect] does, or
    what [disconnect] does. *)
Inductive conn_step (w w' : world) (evs : list event) : Prop :=
| conn_same :
    socket w' = socket w ->
    connected w' = connected w ->
    sockets_created w' = sockets_created w ->
    socket_events evs = [] ->
    conn_step w w' evs
| conn_connect (c : connect_result) :
    socket w' = socket (connect_world c w) ->
    connected w' = connected (connect_world c w) ->
    sockets_created w' = sockets_created (connect_world c w) ->
    socket_events evs = socket_events (connect_events c w) ->
    conn_step w w' evs
| conn_disconnect (close_ok : bool) :
    socket w' = None ->
    connected w' = false ->
    sockets_created w' = sockets_created w ->
    socket_events evs = close_events close_ok w ->
    conn_step w w' evs.

(** The state of the connection after the trace [evs] of a client: the
    sockets of the trace are numbered below the counter; the socket the
    client holds was created and has not been closed; and when
    [connected] is set, the client holds a socket that was connected and
    on which the WATCH command was sent. *)
Definition conn_inv (w : world) (evs : list event) : Prop :=
  (forall e s, In e evs -> socket_of e = Some s -> (s < sockets_created w)%nat) /\
  (forall s, socket w = Some s ->
     In (SockCreate s) evs /\ ~ In (SockClose s) evs) /\
  (connected w = true ->
   exists s, socket w = Some s /\
     In (SockConnect s) evs /\ In (SockSendall s watch_cmd) evs).

(** The kinds of report a message can give: those of a TPV object, of a
    SKY object, and none for anything else. *)
Definition kinds_of (json_loads : pystr -> option pyval) (message : pystr)
    : list subject :=
  match json_loads message with
  | Some (PyDict d) =>
      let msg_class := dict_get d (str "class") (PyStr (str "")) in
      if py_eq_str msg_class (str "TPV") then [gps_location; gps_velocity]
      else if py_eq_str msg_class (str "SKY") then [gps_quality]
      else []
  | _ => []
  end.


Definition is_thread_start (e : event) : bool :=
  match e with
  | ThreadStart _ => true
  | _ => false
  end.

(** ** The module wrapper: [GPSModule._publish_quality] *)

(** What a call into code outside this repository does. *)
Inductive call_result :=
| Returns
| Raises (e : exn).

(** What the module does to its outputs and its logger. *)
Inductive module_event :=
| Publish (out : subject) (payload : pystr)
| ModuleLog (lvl : level) (msg : pystr).

(** The cache of a [GPSModule]: the reports it was last given. *)
Record gps_module := GPSModule {
  module_latest_location : option pyobj;
  module_latest_velocity : gmap pystr pyval;
  module_latest_quality : gmap pystr pyval
}.

Definition set_module_latest_quality (q : gmap pystr pyval) (m : gps_module)
    : gps_module :=
  {| module_latest_location := module_latest_location m;
     module_latest_velocity := module_latest_velocity m;
     module_latest_quality := q |}.

Section Module_.

(** [json.dumps], [str] and the formatting of a value other than [None]
    belong to the Python library. *)
Variable json_dumps : gmap pystr pyval -> result pystr.
Variable py_str : pyval -> pystr.
Variable format_value : pyval -> string -> result pystr.

(** [format(v, spec)] for a format specification that is not empty, as
    in a replacement field [{v:.1f}]: [None] has no formatting of its
    own and [object.__format__] raises [TypeError] for such a
    specification. *)
Definition py_format (v : pyval) (spec : string) : result pystr :=
  match v with
  | PyNone => Err TypeError
  | _ => format_value v spec
  end.

(** [GPSModule._publish_quality(self, quality)]; [publish] is what
    [self.gps_quality.publish] does. The f-string is evaluated, field by
    field, before [logger.debug] is called. *)
Definition _publish_quality (publish : call_result)
    (quality : gmap pystr pyval) (m : gps_module)
    : outcome unit * gps_module * list module_event :=
  let m1 := set_module_latest_quality quality m in
  match json_dumps quality with
  | Err e => (Raise e, m1, [])
  | Ok quality_str =>
      match publish with
      | Raises e => (Raise e, m1, [])
      | Returns =>
          let used := py_str (dict_get quality (str "satellites_used") (PyInt 0)) in
          let sats := py_str (dict_get quality (str "satellites") (PyInt 0)) in
          match py_format (dict_get quality (str "hdop") (PyInt 0)) ".1f" with
          | Err e => (Raise e, m1, [Publish gps_quality quality_str])
          | Ok hdop =>
              (Ret tt, m1,
               [Publish gps_quality quality_str;
                ModuleLog DEBUG
                  (str "GPS quality: " ++ used ++ str "/" ++ sats
                   ++ str " sats, HDOP=" ++ hdop)])
          end
      end
  end.

End Module_.
(** * Properties of the decoder *)

(** ** Comparisons with an [int] literal *)

(** [v >= k] excludes [v < k]. *)
Lemma py_ge_not_lt v k : py_ge v k = Ok true -> py_lt v k = Ok false.
Proof.
  destruct v as [ |b|n|f| | | ]; simpl; try discriminate.
  - intros [= H]. f_equal. apply Z.leb_le in H. apply Z.ltb_ge. exact H.
  - intros [= H]. f_equal. apply Z.leb_le in H. apply Z.ltb_ge. exact H.
  - destruct (float_cmp_int f k) as [[ | | ]|]; intros H;
      try discriminate; reflexivity.
Qed.

(** The two comparisons raise on the same values. *)
Lemma py_lt_ge_defined v k b :
  py_lt v k = Ok b -> exists g, py_ge v 3 = Ok g.
Proof.
  destruct v; simpl; try discriminate; intros _; eexists; reflexivity.
Qed.

(** ** The methods compute the decoder *)

(** [_process_tpv] raises before it changes anything, or produces the
    reports of [decode_tpv], in order. *)
Lemma _process_tpv_decode data w :
  _process_tpv data w =
  match decode_tpv data with
  | Ok rs => (Ret tt, published rs w, published_events rs (heap w))
  | Err e => (Raise e, w, [])
  end.
Proof.
  unfold _process_tpv, decode_tpv.
  unfold bind at 1. unfold lift at 1.
  destruct (py_lt _ 2) as [[|]|e]; try reflexivity.
  unfold bind at 1. unfold lift at 1.
  destruct (py_ge _ 3) as [fix3d|e]; try reflexivity.
  destruct (negb (is_None (dict_get data (str "lat") PyNone))
            && negb (is_None (dict_get data (str "lon") PyNone)));
    destruct (negb (is_None (dict_get data (str "speed") PyNone))
              || negb (is_None (dict_get data (str "track") PyNone))
              || negb (is_None (dict_get data (str "climb") PyNone)));
    reflexivity.
Qed.

(** Likewise [_process_sky] and [decode_sky]. *)
Lemma _process_sky_decode data w :
  _process_sky data w =
  match decode_sky data with
  | Ok rs => (Ret tt, published rs w, published_events rs (heap w))
  | Err e => (Raise e, w, [])
  end.
Proof.
  unfold _process_sky, decode_sky.
  unfold bind at 1. unfold lift at 1.
  destruct (py_len _) as [n_sats|e]; try reflexivity.
  unfold bind at 1. unfold lift at 1.
  destruct (py_iter _) as [sats|e]; try reflexivity.
  unfold bind at 1. unfold lift at 1.
  destruct (count_used sats) as [n_used|e]; reflexivity.
Qed.

Section DecoderFacts.

Variable json_loads : pystr -> option pyval.

(** [_process_gps_message] never raises: it produces the reports of the
    line and logs what the line logs. *)
Lemma _process_gps_message_decode line w :
  _process_gps_message json_loads line w =
  (Ret tt, published (decode_line json_loads line).1 w,
   published_events (decode_line json_loads line).1 (heap w)
   ++ (decode_line json_loads line).2).
Proof.
  unfold _process_gps_message, try_except, dispatch, decode_line.
  unfold bind at 1. unfold lift at 1. unfold json_loads_or_raise.
  destruct (json_loads line) as [[ | | | | | |d]|]; try reflexivity.
  unfold bind at 1. unfold lift at 1. simpl py_get. cbv iota.
  destruct (py_eq_str _ (str "TPV")).
  - rewrite _process_tpv_decode. destruct (decode_tpv d) as [rs|e].
    + simpl. rewrite !app_nil_r. reflexivity.
    + destruct e; reflexivity.
  - destruct (py_eq_str _ (str "SKY")).
    + rewrite _process_sky_decode. destruct (decode_sky d) as [rs|e].
      * simpl. rewrite !app_nil_r. reflexivity.
      * destruct e; reflexivity.
    + reflexivity.
Qed.

End DecoderFacts.

(** ** Producing reports: what changes and what does not *)

Lemma published_heap rs w : heap (published rs w) = heap w ++ rs.*2.
Proof.
  revert w. induction rs as [|[subj o] rest IH]; intros w; simpl.
  - rewrite app_nil_r. reflexivity.
  - rewrite IH. destruct subj; simpl; rewrite <- app_assoc; reflexivity.
Qed.

Lemma published_frame rs w :
  socket (published rs w) = socket w /\
  connected (published rs w) = connected w /\
  _running (published rs w) = _running w /\
  _thread (published rs w) = _thread w /\
  buffer (published rs w) = buffer w /\
  sockets_created (published rs w) = sockets_created w /\
  threads_started (published rs w) = threads_started w.
Proof.
  revert w. induction rs as [|[subj o] rest IH]; intros w; simpl.
  - repeat split.
  - destruct (IH (set_slot subj (length (heap w)) (set_heap (heap w ++ [o]) w)))
      as (H1 & H2 & H3 & H4 & H5 & H6 & H7).
    rewrite H1, H2, H3, H4, H5, H6, H7. destruct subj; repeat split.
Qed.

(** The decoder neither reads nor writes the buffer of the loop. *)
Lemma published_set_buffer rs b w :
  published rs (set_buffer b w) = set_buffer b (published rs w).
Proof.
  revert w. induction rs as [|[subj o] rest IH]; intros w; simpl.
  - reflexivity.
  - rewrite <- IH. destruct subj; reflexivity.
Qed.

Lemma delivered_published_gen rs h more :
  delivered (h ++ rs.*2 ++ more) (published_events rs h) = rs.
Proof.
  revert h. induction rs as [|[subj o] rest IH]; intros h; simpl.
  - reflexivity.
  - unfold delivered in *. simpl.
    rewrite list_lookup_middle by reflexivity. simpl. f_equal.
    specialize (IH (h ++ [o])). rewrite <- app_assoc in IH. exact IH.
Qed.

(** What is delivered is what was decoded. *)
Lemma delivered_published rs w :
  delivered (heap (published rs w)) (published_events rs (heap w)) = rs.
Proof.
  rewrite published_heap.
  pose proof (delivered_published_gen rs (heap w) []) as H.
  rewrite app_nil_r in H. exact H.
Qed.

(** ** Reading a fresh object back *)

Lemma lookup_fresh (h : list pyobj) (o : pyobj) : (h ++ [o]) !! length h = Some o.
Proof. apply list_lookup_middle. reflexivity. Qed.

(** ** [_process_tpv] *)

(** A parsed TPV object is handed to [_process_tpv]. *)
Lemma decode_line_tpv json_loads line d :
  json_loads line = Some (PyDict d) ->
  dict_get d (str "class") (PyStr (str "")) = PyStr (str "TPV") ->
  decode_line json_loads line =
  match decode_tpv d with
  | Ok rs => (rs, [])
  | Err e => ([], [failure_log e])
  end.
Proof. intros Hj Hc. unfold decode_line. rewrite Hj, Hc. reflexivity. Qed.

(** The dict of a velocity report: each field, or [0.0] in its place. *)
Lemma velocity_dict_fields speed track climb :
  velocity_dict speed track climb !! str "speed" = Some (or_zero speed) /\
  velocity_dict speed track climb !! str "track" = Some (or_zero track) /\
  velocity_dict speed track climb !! str "climb" = Some (or_zero climb).
Proof.
  unfold velocity_dict. split; [|split]; reflexivity.
Qed.

(** C1. For a TPV object: with [mode < 2] nothing is produced and nothing
    changes; with [mode >= 2], a position report carrying the given
    [lat] and [lon] is delivered when both are there, its altitude being
    there exactly when [mode >= 3] and [alt] was given, and a velocity
    report is delivered when one of [speed], [track], [climb] is there,
    with [0.0] for each that is not. The sample line of the spec yields
    the position report (37.5, -122.3, 10.0) and the velocity report
    (1.2, 90.0, 0.0). *)
Theorem tpv_reports (json_loads : pystr -> option pyval)
    (data : gmap pystr pyval) (w : world) :
  let mode := dict_get data (str "mode") (PyInt 0) in
  let lat := dict_get data (str "lat") PyNone in
  let lon := dict_get data (str "lon") PyNone in
  let alt := dict_get data (str "alt") PyNone in
  let speed := dict_get data (str "speed") PyNone in
  let track := dict_get data (str "track") PyNone in
  let climb := dict_get data (str "climb") PyNone in
  (py_lt mode 2 = Ok true -> _process_tpv data w = (Ret tt, w, []))
  /\
  (py_ge mode 2 = Ok true ->
   exists w' evs,
     _process_tpv data w = (Ret tt, w', evs) /\
     (is_None lat = false -> is_None lon = false ->
      exists alt',
        In (gps_location, ObjLatLon lat lon alt') (delivered (heap w') evs) /\
        (alt' = alt \/ alt' = PyNone) /\
        (is_None alt' = false <->
         py_ge mode 3 = Ok true /\ is_None alt = false)) /\
     (is_None speed = false \/ is_None track = false \/ is_None climb = false ->
      exists d,
        In (gps_velocity, ObjDict d) (delivered (heap w') evs) /\
        d !! str "speed" = Some (if is_None speed then float_zero else speed) /\
        d !! str "track" = Some (if is_None track then float_zero else track) /\
        d !! str "climb" = Some (if is_None climb then float_zero else climb)))
  /\
  (json_loads Sample.tpv_line = Some (PyDict Sample.tpv) ->
   exists w' evs,
     _process_gps_message json_loads Sample.tpv_line w = (Ret tt, w', evs) /\
     delivered (heap w') evs =
       [ (gps_location, ObjLatLon Sample.f37_5 Sample.fm122_3 Sample.f10_0);
         (gps_velocity,
          ObjDict (<[str "speed" := Sample.f1_2]>
                     (<[str "track" := Sample.f90_0]>
                        (<[str "climb" := float_zero]> ∅)))) ]).
Proof.
  intros mode lat lon alt speed track climb. split; [|split].
  - intros Hlt. rewrite _process_tpv_decode. unfold decode_tpv.
    fold mode. rewrite Hlt. reflexivity.
  - intros Hge.
    pose proof (py_ge_not_lt _ _ Hge) as Hlt.
    destruct (py_lt_ge_defined _ _ _ Hlt) as [fix3d H3].
    rewrite _process_tpv_decode. unfold decode_tpv.
    fold mode lat lon alt speed track climb. rewrite Hlt, H3.
    eexists _, _. split; [reflexivity|]. rewrite delivered_published.
    split.
    + intros Hlat Hlon. rewrite Hlat, Hlon. simpl.
      exists (if fix3d then alt else PyNone). split; [left; reflexivity|].
      split.
      * destruct fix3d; [left | right]; reflexivity.
      * destruct fix3d; simpl; split.
        -- intros H. split; [reflexivity | exact H].
        -- intros [_ H]. exact H.
        -- discriminate.
        -- intros [H _]. discriminate H.
    + intros Hv.
      assert (negb (is_None speed) || negb (is_None track) || negb (is_None climb) = true)
        as Hany.
      { destruct Hv as [H|[H|H]]; rewrite H; simpl;
          rewrite ?orb_true_r; reflexivity. }
      rewrite Hany.
      exists (velocity_dict speed track climb). split.
      * apply in_or_app. right. left. reflexivity.
      * apply velocity_dict_fields.
  - intros Hj. rewrite _process_gps_message_decode.
    rewrite (decode_line_tpv _ _ _ Hj) by reflexivity.
    eexists _, _. split; [reflexivity|].
    change (decode_tpv Sample.tpv) with
      (Ok [ (gps_location, ObjLatLon Sample.f37_5 Sample.fm122_3 Sample.f10_0);
            (gps_velocity,
             ObjDict (velocity_dict Sample.f1_2 Sample.f90_0 PyNone)) ]).
    cbv iota. simpl fst. simpl snd. rewrite app_nil_r.
    rewrite delivered_published. reflexivity.
Qed.

(** The sample lines satisfy the hypotheses of [tpv_reports]. *)
Lemma tpv_reports_witness :
  py_lt (dict_get Sample.tpv_nofix (str "mode") (PyInt 0)) 2 = Ok true /\
  _process_tpv Sample.tpv_nofix init = (Ret tt, init, []) /\
  py_ge (dict_get Sample.tpv (str "mode") (PyInt 0)) 2 = Ok true /\
  Sample.json_loads Sample.tpv_line = Some (PyDict Sample.tpv) /\
  exists w' evs,
    _process_gps_message Sample.json_loads Sample.tpv_line init = (Ret tt, w', evs) /\
    delivered (heap w') evs =
      [ (gps_location, ObjLatLon Sample.f37_5 Sample.fm122_3 Sample.f10_0);
        (gps_velocity,
         ObjDict (<[str "speed" := Sample.f1_2]>
                    (<[str "track" := Sample.f90_0]>
                       (<[str "climb" := float_zero]> ∅)))) ].
Proof.
  pose proof (tpv_reports Sample.json_loads Sample.tpv_nofix init) as [Hno _].
  pose proof (tpv_reports Sample.json_loads Sample.tpv init) as [_ [_ Hline]].
  split; [reflexivity|].
  split; [apply Hno; reflexivity|].
  split; [reflexivity|].
  split; [vm_compute; reflexivity|].
  apply Hline. vm_compute. reflexivity.
Defined.

(** ** [_process_sky] *)

(** The count never exceeds the number of items. *)
Lemma count_used_bound sats n :
  count_used sats = Ok n -> 0 <= n <= Z.of_nat (length sats).
Proof.
  revert n. induction sats as [|sat rest IH]; intros n; simpl.
  - intros [= <-]. lia.
  - destruct (py_get sat _ _) as [u|e]; [|discriminate].
    destruct (count_used rest) as [m|e]; [|discriminate].
    specialize (IH m eq_refl). intros [= <-].
    destruct (py_truthy u); lia.
Qed.

(** On entries as gpsd sends them, the count is that of the entries
    with [used == true]. *)
Lemma count_used_entries sats :
  Forall sat_entry sats ->
  count_used sats = Ok (Z.of_nat (length (List.filter used_true sats))).
Proof.
  induction 1 as [|sat rest Hsat _ IH]; simpl.
  - reflexivity.
  - destruct Hsat as (d & -> & Hused). simpl. rewrite IH.
    unfold dict_get. destruct Hused as [Hu | [b Hu]]; rewrite Hu; simpl.
    + reflexivity.
    + destruct b; simpl; [|reflexivity].
      f_equal. lia.
Qed.

(** [len] and the iteration agree on the number of items. *)
Lemma py_len_iter v n items :
  py_len v = Ok n -> py_iter v = Ok items -> n = Z.of_nat (length items).
Proof.
  destruct v; simpl; try discriminate; intros [= <-] [= <-].
  - rewrite length_fmap. reflexivity.
  - reflexivity.
  - rewrite length_fmap, length_map_to_list. reflexivity.
Qed.

Lemma quality_dict_fields n_sats n_used hdop vdop pdop :
  quality_dict n_sats n_used hdop vdop pdop !! str "satellites" = Some (PyInt n_sats) /\
  quality_dict n_sats n_used hdop vdop pdop !! str "satellites_used" = Some (PyInt n_used) /\
  quality_dict n_sats n_used hdop vdop pdop !! str "hdop" = Some hdop /\
  quality_dict n_sats n_used hdop vdop pdop !! str "vdop" = Some vdop /\
  quality_dict n_sats n_used hdop vdop pdop !! str "pdop" = Some pdop.
Proof. unfold quality_dict. repeat split; reflexivity. Qed.

(** A parsed SKY object is handed to [_process_sky]. *)
Lemma decode_line_sky json_loads line d :
  json_loads line = Some (PyDict d) ->
  dict_get d (str "class") (PyStr (str "")) = PyStr (str "SKY") ->
  decode_line json_loads line =
  match decode_sky d with
  | Ok rs => (rs, [])
  | Err e => ([], [failure_log e])
  end.
Proof. intros Hj Hc. unfold decode_line. rewrite Hj, Hc. reflexivity. Qed.

(** C3. For a SKY object, the quality report that is produced has
    [satellites] equal to the number of entries of the satellites array
    and [satellites_used] between 0 and that number, and it carries
    [hdop], [vdop], [pdop] as the input has them ([None] when absent).
    When the array is as gpsd sends it (objects whose [used], if there,
    is a boolean) the report is produced and [satellites_used] is the
    number of entries with [used == true]. The sample line of the spec
    yields 3 visible, 2 used, hdop 1.1 and no vdop, pdop. *)
Theorem sky_report (json_loads : pystr -> option pyval)
    (data : gmap pystr pyval) (w : world) :
  let satellites := dict_get data (str "satellites") (PyList []) in
  (forall w' evs,
     _process_sky data w = (Ret tt, w', evs) ->
     exists q entries n_used,
       delivered (heap w') evs = [(gps_quality, ObjDict q)] /\
       py_iter satellites = Ok entries /\
       q !! str "satellites" = Some (PyInt (Z.of_nat (length entries))) /\
       q !! str "satellites_used" = Some (PyInt n_used) /\
       0 <= n_used <= Z.of_nat (length entries) /\
       q !! str "hdop" = Some (dict_get data (str "hdop") PyNone) /\
       q !! str "vdop" = Some (dict_get data (str "vdop") PyNone) /\
       q !! str "pdop" = Some (dict_get data (str "pdop") PyNone))
  /\
  (forall entries,
     satellites = PyList entries ->
     Forall sat_entry entries ->
     exists w' evs q,
       _process_sky data w = (Ret tt, w', evs) /\
       delivered (heap w') evs = [(gps_quality, ObjDict q)] /\
       q !! str "satellites" = Some (PyInt (Z.of_nat (length entries))) /\
       q !! str "satellites_used" =
         Some (PyInt (Z.of_nat (length (List.filter used_true entries)))) /\
       (length (List.filter used_true entries) <= length entries)%nat)
  /\
  (json_loads Sample.sky_line = Some (PyDict Sample.sky) ->
   exists w' evs,
     _process_gps_message json_loads Sample.sky_line w = (Ret tt, w', evs) /\
     delivered (heap w') evs =
       [ (gps_quality,
          ObjDict (<[str "satellites" := PyInt 3]>
                     (<[str "satellites_used" := PyInt 2]>
                        (<[str "hdop" := Sample.f1_1]>
                           (<[str "vdop" := PyNone]>
                              (<[str "pdop" := PyNone]> ∅)))))) ]).
Proof.
  intros satellites. split; [|split].
  - intros w' evs. rewrite _process_sky_decode. unfold decode_sky.
    fold satellites.
    destruct (py_len satellites) as [n_sats|e] eqn:Hlen; [|discriminate].
    destruct (py_iter satellites) as [entries|e] eqn:Hiter; [|discriminate].
    destruct (count_used entries) as [n_used|e] eqn:Hcount; [|discriminate].
    intros [= <- <-].
    pose proof (py_len_iter _ _ _ Hlen Hiter) as ->.
    set (q := quality_dict (Z.of_nat (length entries)) n_used
                (dict_get data (str "hdop") PyNone)
                (dict_get data (str "vdop") PyNone)
                (dict_get data (str "pdop") PyNone)).
    exists q, entries, n_used.
    split; [exact (delivered_published [(gps_quality, ObjDict q)] w)|].
    split; [reflexivity|]. subst q.
    destruct (quality_dict_fields (Z.of_nat (length entries)) n_used
                (dict_get data (str "hdop") PyNone)
                (dict_get data (str "vdop") PyNone)
                (dict_get data (str "pdop") PyNone)) as (H1 & H2 & H3 & H4 & H5).
    repeat (split; [first [exact H1 | exact H2 | exact H3 | exact H4
                          | eapply count_used_bound; eassumption
                          | apply (count_used_bound _ _ Hcount)]|]).
    exact H5.
  - intros entries Hsat Hentries.
    rewrite _process_sky_decode. unfold decode_sky. fold satellites.
    rewrite Hsat. simpl py_len. simpl py_iter. cbv iota.
    rewrite (count_used_entries _ Hentries).
    set (q := quality_dict (Z.of_nat (length entries))
                (Z.of_nat (length (List.filter used_true entries)))
                (dict_get data (str "hdop") PyNone)
                (dict_get data (str "vdop") PyNone)
                (dict_get data (str "pdop") PyNone)).
    eexists _, _, q. split; [reflexivity|].
    split; [exact (delivered_published [(gps_quality, ObjDict q)] w)|].
    split; [reflexivity|]. split; [reflexivity|].
    apply List.filter_length_le.
  - intros Hj. rewrite _process_gps_message_decode.
    rewrite (decode_line_sky _ _ _ Hj) by reflexivity.
    eexists _, _. split; [reflexivity|].
    change (decode_sky Sample.sky) with
      (Ok [(gps_quality,
            ObjDict (quality_dict 3 2 Sample.f1_1 PyNone PyNone))]).
    cbv iota. simpl fst. simpl snd. rewrite app_nil_r.
    rewrite delivered_published. reflexivity.
Qed.

(** The sample SKY line satisfies the hypotheses of [sky_report]. *)
Lemma sky_report_witness :
  dict_get Sample.sky (str "satellites") (PyList []) =
    PyList [Sample.sat true; Sample.sat true; Sample.sat false] /\
  Forall sat_entry [Sample.sat true; Sample.sat true; Sample.sat false] /\
  Sample.json_loads Sample.sky_line = Some (PyDict Sample.sky) /\
  exists w' evs,
    _process_gps_message Sample.json_loads Sample.sky_line init = (Ret tt, w', evs) /\
    delivered (heap w') evs =
      [ (gps_quality,
         ObjDict (<[str "satellites" := PyInt 3]>
                    (<[str "satellites_used" := PyInt 2]>
                       (<[str "hdop" := Sample.f1_1]>
                          (<[str "vdop" := PyNone]>
                             (<[str "pdop" := PyNone]> ∅)))))) ].
Proof.
  pose proof (sky_report Sample.json_loads Sample.sky init) as [_ [_ Hline]].
  split; [reflexivity|].
  split.
  { repeat constructor; eexists; (split; [reflexivity|]); right; eexists; reflexivity. }
  split; [vm_compute; reflexivity|].
  apply Hline. vm_compute. reflexivity.
Defined.

(** ** No coercion of the fields *)





(** * Properties of the read loop *)

(** ** Lines *)

#[local] Arguments NL : simpl never.
#[local] Arguments contains_nl : simpl never.

Lemma contains_nl_split1 s :
  contains_nl s = match split1 s with Some _ => true | None => false end.
Proof.
  induction s as [|c r IH]; [reflexivity|].
  change (contains_nl (c :: r)) with ((NL =? c) || contains_nl r).
  change (split1 (c :: r)) with
    (if c =? NL then Some ([], r)
     else (fun lr : pystr * pystr => (c :: lr.1, lr.2)) <$> split1 r).
  rewrite (Z.eqb_sym NL c). destruct (c =? NL); simpl; [reflexivity|].
  rewrite IH. destruct (split1 r); reflexivity.
Qed.

(** [split1] takes the first complete line; the rest is shorter. *)
Lemma split1_lines_rem s :
  match split1 s with
  | Some (line, rest) =>
      lines_rem s = (line :: (lines_rem rest).1, (lines_rem rest).2)
      /\ (length rest < length s)%nat
  | None => lines_rem s = ([], s)
  end.
Proof.
  induction s as [|c r IH]; simpl; [reflexivity|].
  destruct (c =? NL).
  - simpl. destruct (lines_rem r) as [ls rem]. split; [reflexivity | lia].
  - destruct (split1 r) as [[line rest]|]; simpl.
    + destruct IH as [-> Hlen]. split; [reflexivity | lia].
    + rewrite IH. reflexivity.
Qed.

(** Splitting a text that arrives in two parts: the partial line of the
    first part is completed by the second. *)
Lemma lines_rem_app s1 s2 :
  lines_rem (s1 ++ s2) =
  ((lines_rem s1).1 ++ (lines_rem ((lines_rem s1).2 ++ s2)).1,
   (lines_rem ((lines_rem s1).2 ++ s2)).2).
Proof.
  induction s1 as [|c r IH]; simpl.
  - destruct (lines_rem s2); reflexivity.
  - rewrite IH. destruct (lines_rem r) as [ls rem]. simpl.
    destruct (c =? NL) eqn:Hc; simpl.
    + reflexivity.
    + destruct ls as [|l ls']; simpl.
      * rewrite Hc. destruct (lines_rem (rem ++ s2)) as [ls2 rem2]. simpl.
        destruct ls2; reflexivity.
      * reflexivity.
Qed.

(** A text without a line feed has no complete line. *)
Lemma lines_rem_partial s : contains_nl s = false -> lines_rem s = ([], s).
Proof.
  intros H. rewrite contains_nl_split1 in H.
  pose proof (split1_lines_rem s) as Hs.
  destruct (split1 s) as [[line rest]|]; [discriminate | exact Hs].
Qed.

(** A partial line followed by a line feed is the first complete line. *)
Lemma lines_rem_first p rest :
  contains_nl p = false ->
  lines_rem (p ++ NL :: rest) = (p :: (lines_rem rest).1, (lines_rem rest).2).
Proof.
  induction p as [|c p' IH]; intros Hp.
  - simpl. rewrite ?Z.eqb_refl. destruct (lines_rem rest); reflexivity.
  - change (contains_nl (c :: p')) with ((NL =? c) || contains_nl p') in Hp.
    apply orb_false_elim in Hp as [Hc Hp]. rewrite Z.eqb_sym in Hc.
    simpl. rewrite (IH Hp), Hc. reflexivity.
Qed.

(** ** The data path *)

Lemma set_buffer_same w : set_buffer (buffer w) w = w.
Proof. destruct w; reflexivity. Qed.

Lemma apply_steps_app steps1 steps2 w :
  apply_steps (steps1 ++ steps2) w =
  ((apply_steps steps2 (apply_steps steps1 w).1).1,
   (apply_steps steps1 w).2 ++ (apply_steps steps2 (apply_steps steps1 w).1).2).
Proof.
  revert w. induction steps1 as [|[rs logs] rest IH]; intros w; simpl.
  - destruct (apply_steps steps2 w); reflexivity.
  - rewrite IH. destruct (apply_steps rest (published rs w)) as [w1 e1]. simpl.
    rewrite <- !app_assoc. reflexivity.
Qed.

(** The data path neither reads nor writes the buffer. *)
Lemma apply_steps_set_buffer steps b w :
  apply_steps steps (set_buffer b w) =
  (set_buffer b (apply_steps steps w).1, (apply_steps steps w).2).
Proof.
  revert w. induction steps as [|[rs logs] rest IH]; intros w; simpl.
  - reflexivity.
  - rewrite published_set_buffer, IH.
    destruct (apply_steps rest (published rs w)); reflexivity.
Qed.

(** It leaves the connection and the threads alone, and only adds
    objects to the heap. *)
Lemma apply_steps_frame steps w :
  socket (apply_steps steps w).1 = socket w /\
  connected (apply_steps steps w).1 = connected w /\
  _running (apply_steps steps w).1 = _running w /\
  _thread (apply_steps steps w).1 = _thread w /\
  buffer (apply_steps steps w).1 = buffer w /\
  sockets_created (apply_steps steps w).1 = sockets_created w /\
  threads_started (apply_steps steps w).1 = threads_started w /\
  exists new, heap (apply_steps steps w).1 = heap w ++ new.
Proof.
  revert w. induction steps as [|[rs logs] rest IH]; intros w; simpl.
  - repeat split. exists []. rewrite app_nil_r. reflexivity.
  - specialize (IH (published rs w)).
    destruct (apply_steps rest (published rs w)) as [w1 e1]. simpl in *.
    destruct IH as (H1 & H2 & H3 & H4 & H5 & H6 & H7 & new & H8).
    destruct (published_frame rs w) as (G1 & G2 & G3 & G4 & G5 & G6 & G7).
    rewrite H1, H2, H3, H4, H5, H6, H7, G1, G2, G3, G4, G5, G6, G7.
    repeat split. exists (rs.*2 ++ new).
    rewrite H8, published_heap, <- app_assoc. reflexivity.
Qed.

Section DataPath.

Variable json_loads : pystr -> option pyval.

Lemma handle_line_effect line w :
  (if str_truthy (str_strip line)
   then _process_gps_message json_loads line
   else ret tt) w =
  (Ret tt, published (line_effect json_loads line).1 w,
   published_events (line_effect json_loads line).1 (heap w)
   ++ (line_effect json_loads line).2).
Proof.
  unfold line_effect, nonblank. destruct (str_truthy (str_strip line)).
  - apply _process_gps_message_decode.
  - reflexivity.
Qed.

(** The inner loop never runs out of fuel when given more than the
    length of the buffer, never raises, and does what [apply_steps] says
    for the complete lines of the buffer. *)
Lemma process_buffer_steps fuel w :
  (length (buffer w) < fuel)%nat ->
  process_buffer json_loads fuel w =
  (Ret tt,
   (apply_steps (line_effect json_loads <$> (lines_rem (buffer w)).1)
      (set_buffer (lines_rem (buffer w)).2 w)).1,
   (apply_steps (line_effect json_loads <$> (lines_rem (buffer w)).1)
      (set_buffer (lines_rem (buffer w)).2 w)).2).
Proof.
  revert w. induction fuel as [|fuel IH]; intros w Hfuel; [lia|].
  simpl process_buffer. unfold bind at 1. unfold gets at 1.
  rewrite contains_nl_split1.
  pose proof (split1_lines_rem (buffer w)) as Hsplit.
  destruct (split1 (buffer w)) as [[line rest]|].
  - destruct Hsplit as [Hlines Hlen]. rewrite Hlines. simpl fst. simpl snd.
    unfold bind at 1. unfold modify at 1.
    unfold bind at 1. rewrite handle_line_effect.
    set (rs := (line_effect json_loads line).1).
    set (logs := (line_effect json_loads line).2).
    assert (buffer (published rs (set_buffer rest w)) = rest) as Hbuf.
    { destruct (published_frame rs (set_buffer rest w)) as (_ & _ & _ & _ & H & _).
      exact H. }
    rewrite IH by (rewrite Hbuf; lia). rewrite Hbuf.
    cbn [fmap list_fmap apply_steps].
    destruct (line_effect json_loads line) as [rs' logs'] eqn:Hle.
    subst rs logs. simpl fst. simpl snd.
    rewrite !published_set_buffer.
    rewrite !apply_steps_set_buffer. simpl fst. simpl snd.
    change (list_fmap pystr (list report * list event)%type
              (line_effect json_loads) (lines_rem rest).1)
      with (line_effect json_loads <$> (lines_rem rest).1).
    rewrite ?apply_steps_set_buffer.
    destruct (apply_steps (line_effect json_loads <$> (lines_rem rest).1)
                (published rs' w)) as [w1 e1].
    simpl. rewrite <- app_assoc. reflexivity.
  - rewrite Hsplit. simpl. rewrite set_buffer_same. reflexivity.
Qed.

End DataPath.

(** ** One pass of the loop, case by case *)

#[local] Arguments process_buffer : simpl never.

Lemma connect_eq c w :
  connect c w = (Ret (connect_ok c), connect_world c w, connect_events c w).
Proof. destruct c; reflexivity. Qed.

Lemma str_truthy_nonempty (s : pystr) : s <> [] -> str_truthy s = true.
Proof. destruct s; [congruence | reflexivity]. Qed.

Section Passes.

Variable json_loads : pystr -> option pyval.

(** Without a socket the pass logs, waits a second and goes on. *)
Lemma pass_no_socket r c w :
  socket w = None ->
  _gps_loop_body json_loads r c w =
  (Ret tt, w, [Log ERROR "Socket is None in GPS loop"; Sleep 1000]).
Proof.
  intros Hs. unfold _gps_loop_body, try_except, bind, gets. rewrite Hs.
  reflexivity.
Qed.

(** A timeout is not an error: nothing happens. *)
Lemma pass_timeout c w s :
  socket w = Some s ->
  _gps_loop_body json_loads RecvTimeout c w = (Ret tt, w, []).
Proof.
  intros Hs. unfold _gps_loop_body, try_except, bind, gets. rewrite Hs.
  reflexivity.
Qed.

(** A failed read, or bytes that are not UTF-8. *)
Lemma pass_read_error r c w s e :
  socket w = Some s ->
  recv_decode r = Err e ->
  e <> SocketTimeout ->
  _gps_loop_body json_loads r c w =
  (Ret tt,
   (if _running w then connect_world c w else w),
   Log WARNING "Socket read error" ::
   (if _running w then reconnect_events 500 c w else [])).
Proof.
  intros Hs Hr He.
  unfold _gps_loop_body, read_socket, try_except, bind, gets. rewrite Hs.
  unfold lift. rewrite Hr. simpl.
  destruct e; try congruence; simpl;
    (destruct (_running w); simpl; [rewrite connect_eq; destruct c|]; reflexivity).
Qed.

(** A read of no bytes: the peer has closed. *)
Lemma pass_peer_closed r c w s :
  socket w = Some s ->
  recv_decode r = Ok [] ->
  _gps_loop_body json_loads r c w =
  (Ret tt, connect_world c w,
   Log WARNING "No data from gpsd, reconnecting..." :: reconnect_events 1000 c w).
Proof.
  intros Hs Hr.
  unfold _gps_loop_body, read_socket, try_except, bind, gets. rewrite Hs.
  unfold lift. rewrite Hr. simpl. rewrite connect_eq. destruct c; reflexivity.
Qed.

(** A read of some text: the data path. *)
Lemma pass_data r c w s data :
  socket w = Some s ->
  recv_decode r = Ok data ->
  data <> [] ->
  _gps_loop_body json_loads r c w =
  (Ret tt, (feed json_loads data w).1, (feed json_loads data w).2).
Proof.
  intros Hs Hr Hd.
  unfold _gps_loop_body, read_socket, try_except, bind, gets. rewrite Hs.
  unfold lift. rewrite Hr. simpl. rewrite (str_truthy_nonempty _ Hd). simpl.
  rewrite process_buffer_steps by (simpl; lia).
  unfold feed. simpl. reflexivity.
Qed.

End Passes.

(** ** Decoding the bytes of a read *)

Ltac utf8_case :=
  match goal with
  | H : None = Some _ |- _ => discriminate H
  | H : (if ?c then _ else _) = Some _ |- _ => destruct c eqn:?
  | H : match ?r with [] => _ | _ :: _ => _ end = Some _ |- _ =>
      destruct r; [discriminate H|]
  | H : _ <$> utf8_decode ?r = Some _ |- _ =>
      let p := fresh "p" in
      let Hp := fresh "Hp" in
      destruct (utf8_decode r) as [p|] eqn:Hp; [|discriminate H];
      simpl in H; injection H as <-
  end.

(** Two texts that decode on their own decode together, to the two
    results in a row. *)
Lemma utf8_decode_app_bounded n :
  forall a b x y,
    (length a <= n)%nat ->
    utf8_decode a = Some x ->
    utf8_decode b = Some y ->
    utf8_decode (a ++ b) = Some (x ++ y).
Proof.
  induction n as [|n IH]; intros a b x y Hlen Ha Hb.
  - destruct a; [|simpl in Hlen; lia]. simpl in Ha. injection Ha as <-. exact Hb.
  - destruct a as [|b0 r0]; [simpl in Ha; injection Ha as <-; exact Hb|].
    simpl in Hlen. cbn [utf8_decode] in Ha.
    repeat utf8_case; simpl in Hlen;
      cbn [app utf8_decode];
      repeat match goal with
             | H : ?c = _ |- context [if ?c then _ else _] => rewrite H
             end;
      (erewrite IH; [reflexivity | | eassumption | eassumption]); lia.
Qed.

Lemma utf8_decode_app a b x y :
  utf8_decode a = Some x ->
  utf8_decode b = Some y ->
  utf8_decode (a ++ b) = Some (x ++ y).
Proof. apply (utf8_decode_app_bounded (length a)). lia. Qed.

(** Only the empty sequence of bytes decodes to the empty text. *)
Lemma utf8_decode_nil bs : utf8_decode bs = Some [] -> bs = [].
Proof.
  destruct bs as [|b0 r0]; [reflexivity|]. cbn [utf8_decode]. intros H.
  repeat utf8_case;
    match goal with
    | H : _ <$> utf8_decode ?r = Some [] |- _ =>
        destruct (utf8_decode r); discriminate H
    end.
Qed.

(** ** Text that arrives in several reads *)

Lemma feed_frame json_loads data w :
  socket (feed json_loads data w).1 = socket w /\
  _running (feed json_loads data w).1 = _running w /\
  buffer (feed json_loads data w).1 = (lines_rem (buffer w ++ data)).2.
Proof.
  unfold feed. rewrite apply_steps_set_buffer. simpl.
  destruct (apply_steps_frame
              (line_effect json_loads <$> (lines_rem (buffer w ++ data)).1) w)
    as (H1 & _ & H3 & _).
  rewrite H1, H3. repeat split.
Qed.

(** Receiving [d1] and then [d2] is receiving [d1 ++ d2]. *)
Lemma feed_feed json_loads d1 d2 w :
  feed json_loads (d1 ++ d2) w =
  ((feed json_loads d2 (feed json_loads d1 w).1).1,
   (feed json_loads d1 w).2 ++ (feed json_loads d2 (feed json_loads d1 w).1).2).
Proof.
  destruct (feed_frame json_loads d1 w) as (_ & _ & Hbuf).
  unfold feed at 3 5. rewrite Hbuf. unfold feed.
  rewrite (app_assoc (buffer w) d1 d2), lines_rem_app. simpl fst. simpl snd.
  set (l1 := (lines_rem (buffer w ++ d1)).1).
  set (r1 := (lines_rem (buffer w ++ d1)).2).
  set (l2 := (lines_rem (r1 ++ d2)).1).
  set (r2 := (lines_rem (r1 ++ d2)).2).
  rewrite fmap_app, apply_steps_app.
  rewrite !apply_steps_set_buffer. simpl fst. simpl snd.
  rewrite !apply_steps_set_buffer. simpl fst. simpl snd.
  reflexivity.
Qed.

Section Reads.

Variable json_loads : pystr -> option pyval.

(** A run of reads that all bring text is one [feed] of the whole text. *)
Lemma loop_feeds rest :
  forall bs inputs w s,
    _running w = true ->
    socket w = Some s ->
    Forall (fun bs => bs <> [] /\ is_Some (utf8_decode bs)) (bs :: rest) ->
    inputs.*1 = RecvData <$> (bs :: rest) ->
    exists data,
      utf8_decode (concat (bs :: rest)) = Some data /\
      data <> [] /\
      _gps_loop_from json_loads inputs w =
      (Ret tt, (feed json_loads data w).1, (feed json_loads data w).2).
Proof.
  induction rest as [|bs2 rest IH]; intros bs inputs w s Hrun Hsock Hall Hin.
  - apply Forall_cons in Hall as [[Hne [d Hd]] _].
    destruct inputs as [|[r c] [|? ?]]; try discriminate Hin.
    injection Hin as ->.
    exists d. simpl concat. rewrite app_nil_r. split; [exact Hd|].
    assert (d <> []) as Hdne.
    { intros ->. apply Hne. apply utf8_decode_nil. exact Hd. }
    split; [exact Hdne|].
    simpl _gps_loop_from. unfold bind at 1. unfold gets at 1. rewrite Hrun.
    unfold bind at 1.
    rewrite (pass_data json_loads (RecvData bs) c w s d Hsock)
      by (simpl; try rewrite Hd; auto).
    simpl. rewrite app_nil_r. reflexivity.
  - apply Forall_cons in Hall as [[Hne [d Hd]] Hall].
    destruct inputs as [|[r c] inputs']; try discriminate Hin.
    injection Hin as -> Hin.
    assert (d <> []) as Hdne.
    { intros ->. apply Hne. apply utf8_decode_nil. exact Hd. }
    destruct (feed_frame json_loads d w) as (Hs1 & Hr1 & _).
    destruct (IH bs2 inputs' (feed json_loads d w).1 s) as (d' & Hd' & Hd'ne & Hloop).
    { rewrite Hr1. exact Hrun. }
    { rewrite Hs1. exact Hsock. }
    { exact Hall. }
    { exact Hin. }
    exists (d ++ d'). split.
    { change (concat (bs :: bs2 :: rest)) with (bs ++ concat (bs2 :: rest)).
      apply utf8_decode_app; assumption. }
    split.
    { destruct d; [congruence | discriminate]. }
    cbn [_gps_loop_from]. unfold bind at 1. unfold gets at 1. rewrite Hrun.
    unfold bind at 1.
    rewrite (pass_data json_loads (RecvData bs) c w s d Hsock)
      by (simpl; try rewrite Hd; auto).
    rewrite Hloop, feed_feed. simpl. reflexivity.
Qed.

End Reads.

(** C2. The loop does not hand the same lines to the decoder for every
    way of splitting a byte stream into reads. On the sample line with
    U+00E9, two reads that part inside the character lose the line:
    neither read decodes on its own, both are treated as read errors, so
    nothing reaches the decoder and no report is delivered, while the
    same bytes in one read yield a position report. *)
Lemma read_split_inside_character :
  (exists w' evs,
     _gps_loop_from Sample.json_loads
       [(RecvData Sample.utf8_read1, ConnectOk);
        (RecvData Sample.utf8_read2, ConnectOk)] Sample.streaming
     = (Ret tt, w', evs) /\
     delivered (heap w') evs = []) /\
  (exists w' evs,
     _gps_loop_from Sample.json_loads
       [(RecvData (Sample.utf8_read1 ++ Sample.utf8_read2), ConnectOk)]
       Sample.streaming
     = (Ret tt, w', evs) /\
     delivered (heap w') evs =
       [(gps_location, ObjLatLon Sample.f37_5 Sample.fm122_3 PyNone)]).
Proof.
  split; eexists _, _; (split; [vm_compute; reflexivity | vm_compute; reflexivity]).
Qed.

(** X1. What holds of the buffering: when every read brings at least one
    byte and is valid UTF-8 on its own (as with any split of an ASCII
    stream, or a split between characters), the loop run on the
    successive reads ends in
    the same world, with the same trace, as the loop run on one read of
    the whole stream: the complete lines of buffer plus stream are
    decoded in order, and the partial line after them stays in the
    buffer. *)
Theorem reads_of_whole_characters (json_loads : pystr -> option pyval)
    (w : world) (s : nat) (chunks : list (list byte))
    (inputs : list (recv_result * connect_result)) (c : connect_result) :
  _running w = true ->
  socket w = Some s ->
  chunks <> [] ->
  Forall (fun bs => bs <> [] /\ is_Some (utf8_decode bs)) chunks ->
  inputs.*1 = RecvData <$> chunks ->
  exists data,
    utf8_decode (concat chunks) = Some data /\
    _gps_loop_from json_loads inputs w =
      _gps_loop_from json_loads [(RecvData (concat chunks), c)] w /\
    _gps_loop_from json_loads inputs w =
      (Ret tt, (feed json_loads data w).1, (feed json_loads data w).2) /\
    buffer (feed json_loads data w).1 = (lines_rem (buffer w ++ data)).2.
Proof.
  intros Hrun Hsock Hne Hall Hin.
  destruct chunks as [|bs rest]; [congruence|].
  destruct (loop_feeds json_loads rest bs inputs w s Hrun Hsock Hall Hin)
    as (data & Hdata & Hdne & Hloop).
  exists data. split; [exact Hdata|].
  split; [|split; [exact Hloop | apply feed_frame]].
  rewrite Hloop. symmetry.
  cbn [_gps_loop_from]. unfold bind at 1. unfold gets at 1. rewrite Hrun.
  unfold bind at 1.
  rewrite (pass_data json_loads (RecvData (concat (bs :: rest))) c w s data Hsock)
    by (unfold recv_decode; try rewrite Hdata; auto).
  simpl. rewrite app_nil_r. reflexivity.
Qed.

(** The sample TPV line in three reads satisfies the hypotheses of
    [reads_of_whole_characters], and the three reads deliver the reports
    of the line. *)
Lemma reads_of_whole_characters_witness :
  _running Sample.streaming = true /\
  socket Sample.streaming = Some 0%nat /\
  Forall (fun bs => bs <> [] /\ is_Some (utf8_decode bs))
    [Sample.tpv_read1; Sample.tpv_read2; Sample.tpv_read3] /\
  utf8_decode (concat [Sample.tpv_read1; Sample.tpv_read2; Sample.tpv_read3])
    = Some (Sample.tpv_line ++ [NL]) /\
  _gps_loop_from Sample.json_loads
    [(RecvData Sample.tpv_read1, ConnectOk);
     (RecvData Sample.tpv_read2, ConnectOk);
     (RecvData Sample.tpv_read3, ConnectOk)] Sample.streaming =
  _gps_loop_from Sample.json_loads
    [(RecvData (concat [Sample.tpv_read1; Sample.tpv_read2; Sample.tpv_read3]),
      ConnectOk)] Sample.streaming.
Proof.
  assert (Forall (fun bs => bs <> [] /\ is_Some (utf8_decode bs))
            [Sample.tpv_read1; Sample.tpv_read2; Sample.tpv_read3]) as Hall.
  { repeat constructor; try discriminate; eexists; vm_compute; reflexivity. }
  split; [reflexivity|]. split; [reflexivity|]. split; [exact Hall|].
  split; [vm_compute; reflexivity|].
  destruct (reads_of_whole_characters Sample.json_loads Sample.streaming 0%nat
              [Sample.tpv_read1; Sample.tpv_read2; Sample.tpv_read3]
              [(RecvData Sample.tpv_read1, ConnectOk);
               (RecvData Sample.tpv_read2, ConnectOk);
               (RecvData Sample.tpv_read3, ConnectOk)]
              ConnectOk eq_refl eq_refl ltac:(discriminate) Hall eq_refl)
    as (data & _ & Heq & _).
  exact Heq.
Defined.

(** ** Malformed lines *)




(** * Properties of the client *)

(** C8. With streaming already running, [start_streaming] returns [True]
    and leaves the client as it is: no thread is started and no
    connection is attempted, the only trace being the warning in the
    log. A second call right after a successful one is such a call. *)
Theorem start_streaming_idempotent (c : connect_result) (w : world) :
  (_running w = true ->
   start_streaming c w =
   (Ret true, w, [Log WARNING "GPS streaming already running"]))
  /\
  (forall c1 w1 evs1,
     start_streaming c1 w = (Ret true, w1, evs1) ->
     start_streaming c w1 =
     (Ret true, w1, [Log WARNING "GPS streaming already running"])).
Proof.
  assert (forall c0 w0, _running w0 = true ->
            start_streaming c0 w0 =
            (Ret true, w0, [Log WARNING "GPS streaming already running"]))
    as Hrunning.
  { intros c0 w0 H. unfold start_streaming, bind, gets. rewrite H. reflexivity. }
  split; [apply Hrunning|].
  intros c1 w1 evs1 Hstart. apply Hrunning.
  unfold start_streaming, bind, gets in Hstart.
  destruct (_running w) eqn:Hr.
  - simpl in Hstart. injection Hstart as <- _. exact Hr.
  - destruct (connected w).
    + simpl in Hstart. injection Hstart as <- _. reflexivity.
    + rewrite connect_eq in Hstart. destruct c1; simpl in Hstart;
        try discriminate Hstart. injection Hstart as <- _. reflexivity.
Qed.

(** A new client that starts streaming satisfies the hypotheses of
    [start_streaming_idempotent]. *)
Lemma start_streaming_idempotent_witness :
  _running Sample.streaming = true /\
  (exists evs, start_streaming ConnectOk init = (Ret true, Sample.streaming, evs)) /\
  start_streaming ConnectFailed Sample.streaming =
  (Ret true, Sample.streaming, [Log WARNING "GPS streaming already running"]).
Proof.
  split; [reflexivity|]. split; [eexists; reflexivity|].
  exact (proj2 (start_streaming_idempotent ConnectFailed init)
           ConnectOk Sample.streaming _ eq_refl).
Defined.

(** ** Reconnection *)

(** [connect] touches the socket, the flag [connected] and the socket
    counter, nothing else; it never leaves the client without a socket
    when it had one, and it closes nothing. *)
Lemma connect_world_frame c w :
  _running (connect_world c w) = _running w /\
  _thread (connect_world c w) = _thread w /\
  buffer (connect_world c w) = buffer w /\
  heap (connect_world c w) = heap w /\
  _latest_location (connect_world c w) = _latest_location w /\
  _latest_velocity (connect_world c w) = _latest_velocity w /\
  _latest_quality (connect_world c w) = _latest_quality w /\
  threads_started (connect_world c w) = threads_started w /\
  (socket w <> None -> socket (connect_world c w) <> None).
Proof. destruct c; simpl; repeat split; auto; discriminate. Qed.

Lemma connect_events_quiet c w e :
  In e (connect_events c w) -> is_close e = false /\ report_of (heap w) e = None.
Proof.
  destruct c; simpl; intros H;
    repeat (destruct H as [<-|H]; [split; reflexivity|]); destruct H.
Qed.

Lemma connect_attempts_app evs1 evs2 :
  connect_attempts (evs1 ++ evs2) = (connect_attempts evs1 + connect_attempts evs2)%nat.
Proof. unfold connect_attempts. rewrite List.filter_app, length_app. reflexivity. Qed.

Lemma reconnect_events_attempts ms c w :
  connect_attempts (reconnect_events ms c w) = 1%nat.
Proof. destruct c; reflexivity. Qed.

Section Reconnect.

Variable json_loads : pystr -> option pyval.

(** Every pass of a running loop with a socket returns normally and
    leaves the loop running with a socket; a pass that finds the
    connection lost makes exactly one connection attempt. *)
Lemma pass_keeps_running r c w s :
  _running w = true ->
  socket w = Some s ->
  exists w' evs,
    _gps_loop_body json_loads r c w = (Ret tt, w', evs) /\
    _running w' = true /\
    socket w' <> None /\
    (lost_connection r -> connect_attempts evs = 1%nat).
Proof.
  intros Hrun Hs. unfold lost_connection.
  assert (socket w <> None) as Hsome by (rewrite Hs; discriminate).
  destruct (connect_world_frame c w) as (Hr & _ & _ & _ & _ & _ & _ & _ & Hsock).
  destruct (recv_decode r) as [data|e] eqn:Hrecv.
  - destruct data as [|ch data'].
    + rewrite (pass_peer_closed json_loads r c w s Hs Hrecv).
      eexists _, _. split; [reflexivity|]. rewrite Hr.
      split; [exact Hrun|]. split; [auto|]. intros _.
      change (Log WARNING "No data from gpsd, reconnecting..." :: reconnect_events 1000 c w)
        with ([Log WARNING "No data from gpsd, reconnecting..."] ++ reconnect_events 1000 c w).
      rewrite connect_attempts_app, reconnect_events_attempts. reflexivity.
    + rewrite (pass_data json_loads r c w s _ Hs Hrecv) by discriminate.
      destruct (feed_frame json_loads (ch :: data') w) as (H1 & H2 & _).
      eexists _, _. split; [reflexivity|]. rewrite H1, H2.
      split; [exact Hrun|]. split; [exact Hsome|]. discriminate.
  - assert (e = SocketTimeout \/ e <> SocketTimeout) as [->|Hne]
      by (destruct e; first [left; reflexivity | right; discriminate]).
    + destruct r as [| |bs]; simpl in Hrecv; try discriminate.
      * rewrite (pass_timeout json_loads c w s Hs).
        eexists _, _. split; [reflexivity|].
        split; [exact Hrun|]. split; [exact Hsome|]. congruence.
      * destruct (utf8_decode bs); discriminate.
    + rewrite (pass_read_error json_loads r c w s e Hs Hrecv Hne). rewrite Hrun.
      eexists _, _. split; [reflexivity|]. rewrite Hr.
      split; [exact Hrun|]. split; [auto|]. intros _.
      change (Log WARNING "Socket read error" :: reconnect_events 500 c w)
        with ([Log WARNING "Socket read error"] ++ reconnect_events 500 c w).
      rewrite connect_attempts_app, reconnect_events_attempts. reflexivity.
Qed.

(** Whatever the environment answers, pass after pass, the loop goes
    through all of it and is still running; when every pass finds the
    connection lost, there are as many connection attempts as passes. *)
Lemma loop_never_gives_up inputs :
  forall w s,
    _running w = true ->
    socket w = Some s ->
    exists w' evs,
      _gps_loop_from json_loads inputs w = (Ret tt, w', evs) /\
      _running w' = true /\
      socket w' <> None /\
      (Forall (fun rc => lost_connection rc.1) inputs ->
       connect_attempts evs = length inputs).
Proof.
  induction inputs as [|[r c] rest IH]; intros w s Hrun Hs.
  - exists w, []. repeat split; auto. rewrite Hs. discriminate.
  - destruct (pass_keeps_running r c w s Hrun Hs) as (w1 & e1 & Hpass & Hr1 & Hs1 & Hac).
    destruct (socket w1) as [s1|] eqn:Hsock1; [|congruence].
    destruct (IH w1 s1 Hr1 Hsock1) as (w2 & e2 & Hloop & Hr2 & Hs2 & Hac2).
    exists w2, (e1 ++ e2).
    split.
    { cbn [_gps_loop_from]. unfold bind at 1. unfold gets at 1. rewrite Hrun.
      unfold bind at 1. rewrite Hpass, Hloop. reflexivity. }
    split; [exact Hr2|]. split; [exact Hs2|].
    intros Hall. apply Forall_cons in Hall as [Hlost Hall].
    rewrite connect_attempts_app, (Hac Hlost), (Hac2 Hall). reflexivity.
Qed.

End Reconnect.

(** On a streaming client, a read of no bytes is followed by a wait of
    one second and a successful [connect] that installs socket 1 in the
    place of socket 0; socket 0 is not closed. *)
Lemma reconnect_leaves_socket_open :
  socket Sample.streaming = Some 0%nat /\
  exists w',
    _gps_loop_body Sample.json_loads (RecvData []) ConnectOk Sample.streaming =
    (Ret tt, w',
     [ Log WARNING "No data from gpsd, reconnecting...";
       Sleep 1000;
       Log INFO "Connecting to gpsd";
       SockCreate 1; SockConnect 1; SockSendall 1 watch_cmd;
       Log INFO "Connected to gpsd" ]) /\
    socket w' = Some 1%nat.
Proof.
  split; [reflexivity|]. eexists. split; [vm_compute; reflexivity | reflexivity].
Qed.

(** C6, amended. A pass of the running loop that finds the connection
    lost logs a warning, waits (half a second after a read error, one
    second after a read of no bytes), attempts [connect], and waits five
    more seconds when the attempt fails. No socket is closed on the way:
    [connect] puts the new socket in the place of the old one. The
    client is still running and has a socket afterwards, and for every
    sequence of answers of the environment the loop goes through all of
    them and is still running at the end, with one connection attempt
    for each pass that found the connection lost. *)
Theorem reconnect_sequence (json_loads : pystr -> option pyval)
    (w : world) (s : nat) (r : recv_result) (c : connect_result) :
  _running w = true ->
  socket w = Some s ->
  lost_connection r ->
  (exists warning delay,
     ((exists e, recv_decode r = Err e) /\
        warning = "Socket read error"%string /\ delay = 500
      \/
      recv_decode r = Ok [] /\
        warning = "No data from gpsd, reconnecting..."%string /\ delay = 1000)
     /\
     _gps_loop_body json_loads r c w =
     (Ret tt, connect_world c w,
      Log WARNING warning :: Sleep delay ::
      connect_events c w ++ (if connect_ok c then [] else [Sleep 5000])))
  /\
  (forall e, In e (connect_events c w) -> is_close e = false)
  /\
  _running (connect_world c w) = true
  /\
  socket (connect_world c w) <> None
  /\
  (forall inputs,
     exists w' evs,
       _gps_loop_from json_loads inputs w = (Ret tt, w', evs) /\
       _running w' = true /\
       (Forall (fun rc => lost_connection rc.1) inputs ->
        connect_attempts evs = length inputs)).
Proof.
  intros Hrun Hs Hlost.
  destruct (connect_world_frame c w) as (Hr & _ & _ & _ & _ & _ & _ & _ & Hsock).
  split; [|split; [|split; [|split]]].
  - unfold lost_connection in Hlost.
    destruct (recv_decode r) as [data|e] eqn:Hrecv.
    + subst data. exists "No data from gpsd, reconnecting..."%string, 1000.
      split; [right; repeat split|].
      apply (pass_peer_closed json_loads r c w s Hs Hrecv).
    + exists "Socket read error"%string, 500.
      split; [left; split; [exists e; reflexivity | split; reflexivity]|].
      rewrite (pass_read_error json_loads r c w s e Hs Hrecv Hlost), Hrun.
      reflexivity.
  - intros e He. apply (connect_events_quiet c w e He).
  - rewrite Hr. exact Hrun.
  - apply Hsock. rewrite Hs. discriminate.
  - intros inputs.
    destruct (loop_never_gives_up json_loads inputs w s Hrun Hs)
      as (w' & evs & Hloop & Hr' & _ & Hac).
    exists w', evs. auto.
Qed.

(** A streaming client whose read fails and whose reconnection is refused
    satisfies the hypotheses of [reconnect_sequence]. *)
Lemma reconnect_sequence_witness :
  _running Sample.streaming = true /\
  socket Sample.streaming = Some 0%nat /\
  lost_connection RecvError /\
  _gps_loop_body Sample.json_loads RecvError ConnectFailed Sample.streaming =
  (Ret tt, connect_world ConnectFailed Sample.streaming,
   [ Log WARNING "Socket read error"; Sleep 500;
     Log INFO "Connecting to gpsd"; SockCreate 1;
     Log ERROR "Failed to connect to gpsd"; Sleep 5000 ]).
Proof.
  assert (lost_connection RecvError) as Hlost by (simpl; discriminate).
  split; [reflexivity|]. split; [reflexivity|]. split; [exact Hlost|].
  destruct (reconnect_sequence Sample.json_loads Sample.streaming 0%nat
              RecvError ConnectFailed eq_refl eq_refl Hlost)
    as [(warning & delay & [(_ & -> & ->)|(Hfalse & _)] & Hpass) _].
  - exact Hpass.
  - discriminate Hfalse.
Defined.

(** ** The cache slots *)

Lemma velocity_dict_nonempty speed track climb : velocity_dict speed track climb <> ∅.
Proof. unfold velocity_dict. apply insert_non_empty. Qed.

Lemma quality_dict_nonempty n_sats n_used hdop vdop pdop :
  quality_dict n_sats n_used hdop vdop pdop <> ∅.
Proof. unfold quality_dict. apply insert_non_empty. Qed.

(** The decoder only produces objects of the kind of their slot. *)
Lemma decode_tpv_proper data rs :
  decode_tpv data = Ok rs -> Forall (fun r => proper r.1 r.2) rs.
Proof.
  unfold decode_tpv.
  destruct (py_lt _ 2) as [[|]|]; try discriminate.
  - intros [= <-]. constructor.
  - destruct (py_ge _ 3) as [fix3d|]; try discriminate. intros [= <-].
    apply Forall_app. split.
    + destruct (_ && _); repeat constructor.
    + destruct (_ || _); repeat constructor. apply velocity_dict_nonempty.
Qed.

Lemma decode_sky_proper data rs :
  decode_sky data = Ok rs -> Forall (fun r => proper r.1 r.2) rs.
Proof.
  unfold decode_sky.
  destruct (py_len _); try discriminate.
  destruct (py_iter _); try discriminate.
  destruct (count_used _); try discriminate.
  intros [= <-]. repeat constructor. apply quality_dict_nonempty.
Qed.

Lemma line_effect_proper json_loads line :
  Forall (fun r => proper r.1 r.2) (line_effect json_loads line).1 /\
  Forall (fun e => is_delivery e = false) (line_effect json_loads line).2.
Proof.
  unfold line_effect. destruct (nonblank line); [|split; constructor].
  unfold decode_line.
  destruct (json_loads line) as [[ | | | | | |d]|];
    try solve [split; repeat constructor].
  destruct (py_eq_str _ (str "TPV")).
  - destruct (decode_tpv d) as [rs|e] eqn:H.
    + split; [apply (decode_tpv_proper _ _ H) | constructor].
    + split; [constructor | destruct e; repeat constructor].
  - destruct (py_eq_str _ (str "SKY")).
    + destruct (decode_sky d) as [rs|e] eqn:H.
      * split; [apply (decode_sky_proper _ _ H) | constructor].
      * split; [constructor | destruct e; repeat constructor].
    + split; constructor.
Qed.

(** A delivery in the trace of [published] is the delivery of one of the
    reports. *)
Lemma published_events_in rs h subj a :
  In (OnNext subj a) (published_events rs h) -> exists o, In (subj, o) rs.
Proof.
  revert h. induction rs as [|[s0 o0] rest IH]; intros h; simpl; [tauto|].
  intros [[= <- _]|H].
  - exists o0. left. reflexivity.
  - destruct (IH _ H) as [o Ho]. exists o. right. exact Ho.
Qed.

(** After [published], a slot either is as before, no report of its kind
    having been produced, or refers to one of the reports, which has
    been delivered. *)
Lemma published_slot rs subj :
  forall w,
    (slot_addr subj (published rs w) = slot_addr subj w /\
     forall o, ~ In (subj, o) rs)
    \/
    (exists a o,
       slot_addr subj (published rs w) = Some a /\
       heap (published rs w) !! a = Some o /\
       In (subj, o) rs /\
       In (OnNext subj a) (published_events rs (heap w))).
Proof.
  induction rs as [|[s0 o0] rest IH]; intros w.
  - left. split; [reflexivity | intros o []].
  - cbn [published published_events].
    set (w1 := set_slot s0 (length (heap w)) (set_heap (heap w ++ [o0]) w)).
    destruct (IH w1) as [[Hsame Hnone] | (a & o & Ha & Ho & Hin & Hev)].
    + assert (s0 = subj \/ s0 <> subj) as [->|Hne]
        by (destruct s0, subj; first [left; reflexivity | right; discriminate]).
      * right. exists (length (heap w)), o0.
        split; [rewrite Hsame; subst w1; destruct subj; reflexivity|].
        split.
        { rewrite published_heap.
          assert (heap w1 = heap w ++ [o0]) as -> by (subst w1; destruct subj; reflexivity).
          rewrite <- app_assoc. apply list_lookup_middle. reflexivity. }
        split; left; reflexivity.
      * left. split.
        { rewrite Hsame. subst w1. destruct s0, subj; try reflexivity; congruence. }
        intros o [[= -> _]|H]; [congruence | apply (Hnone o H)].
    + right. exists a, o. split; [exact Ha|]. split; [exact Ho|].
      split; [right; exact Hin|].
      right. replace (heap w ++ [o0]) with (heap w1)
        by (subst w1; destruct s0; reflexivity). exact Hev.
Qed.

Lemma quiet_no_delivery evs subj a :
  Forall (fun e => is_delivery e = false) evs -> ~ In (OnNext subj a) evs.
Proof.
  intros Hall Hin. rewrite Forall_forall in Hall.
  apply list_elem_of_In in Hin. specialize (Hall _ Hin). discriminate Hall.
Qed.

Lemma apply_steps_slot steps subj :
  forall w,
    Forall (fun st => Forall (fun r => proper r.1 r.2) st.1 /\
                      Forall (fun e => is_delivery e = false) st.2) steps ->
    slot_step subj w (apply_steps steps w).1 (apply_steps steps w).2.
Proof.
  induction steps as [|[rs logs] rest IH]; intros w Hall.
  - left. split; [reflexivity | intros a []].
  - apply Forall_cons in Hall as [[Hrs Hlogs] Hall]. simpl in Hrs, Hlogs.
    cbn [apply_steps].
    specialize (IH (published rs w) Hall).
    destruct (apply_steps_frame rest (published rs w))
      as (_ & _ & _ & _ & _ & _ & _ & new & Hheap).
    destruct (apply_steps rest (published rs w)) as [w' evs]. simpl in *.
    destruct IH as [[Hsame Hnone] | (a & o & Ha & Ho & Hp & Hin)].
    + destruct (published_slot rs subj w)
        as [[Hsame' Hnone'] | (a & o & Ha & Ho & Hin & Hev)].
      * left. split; [congruence|]. intros a Hin.
        apply in_app_or in Hin as [Hin|Hin].
        { destruct (published_events_in _ _ _ _ Hin) as [o Ho]. apply (Hnone' o Ho). }
        apply in_app_or in Hin as [Hin|Hin].
        { apply (quiet_no_delivery _ _ _ Hlogs Hin). }
        apply (Hnone a Hin).
      * right. exists a, o. split; [congruence|]. split.
        { rewrite Hheap. apply lookup_app_l_Some. exact Ho. }
        split.
        { rewrite Forall_forall in Hrs. apply list_elem_of_In in Hin.
          apply (Hrs _ Hin). }
        apply in_or_app. left. exact Hev.
    + right. exists a, o. repeat split; try assumption.
      apply in_or_app. right. apply in_or_app. right. exact Hin.
Qed.

Lemma feed_slot json_loads data w subj :
  slot_step subj w (feed json_loads data w).1 (feed json_loads data w).2.
Proof.
  unfold feed. rewrite apply_steps_set_buffer. simpl fst. simpl snd.
  assert (forall w0 b, slot_addr subj (set_buffer b w0) = slot_addr subj w0) as Hsb
    by (intros; destruct subj; reflexivity).
  match goal with
  | |- context [apply_steps ?steps w] =>
      pose proof (apply_steps_slot steps subj w) as H
  end.
  destruct H as [[Hsame Hnone] | (a & o & Ha & Ho & Hp & Hin)].
  - apply Forall_fmap, Forall_forall. intros line _. apply line_effect_proper.
  - left. split; [rewrite Hsb; exact Hsame | exact Hnone].
  - right. exists a, o. rewrite Hsb. repeat split; assumption.
Qed.

Lemma feed_heap json_loads data w :
  exists new, heap (feed json_loads data w).1 = heap w ++ new.
Proof.
  unfold feed. rewrite apply_steps_set_buffer. simpl.
  destruct (apply_steps_frame
              (line_effect json_loads <$> (lines_rem (buffer w ++ data)).1) w)
    as (_ & _ & _ & _ & _ & _ & _ & Hheap).
  exact Hheap.
Qed.

Lemma quiet_slot_step subj w w' evs :
  quiet_step w w' evs -> slot_step subj w w' evs.
Proof.
  intros (_ & Hl & Hv & Hq & _ & Hquiet). left. split.
  - destruct subj; simpl; congruence.
  - intros a. apply quiet_no_delivery. exact Hquiet.
Qed.

(** ** Every operation, one step at a time *)

Ltac quiet_result :=
  eexists _, _; split; [reflexivity|]; right; left;
  unfold quiet_step; simpl;
  repeat (split; [reflexivity|]);
  split; [exists []; rewrite app_nil_r; reflexivity | repeat constructor].

Section Steps.

Variable json_loads : pystr -> option pyval.

(** An operation on a well-formed client returns normally, and is of one
    of three kinds: the entry into the loop, which empties the buffer; a
    quiet step; or a pass of the loop that receives some text. *)
Lemma exec_cases o w :
  well_formed w ->
  exists w' evs,
    exec json_loads o w = (Ret tt, w', evs) /\
    ((o = LoopEnter /\ w' = set_buffer [] w /\ evs = [])
     \/ quiet_step w w' evs
     \/ (exists data,
           data <> [] /\
           w' = (feed json_loads data w).1 /\
           evs = (feed json_loads data w).2)).
Proof.
  intros (Hloc & [dv Hv] & [dq Hq]).
  destruct o as [c|close_ok|c|alive close_ok| |r c| | | ].
  - (* connect *)
    unfold exec, forget, bind. rewrite connect_eq.
    destruct (connect_world_frame c w) as (_ & _ & Hb & Hh & Hl & Hvel & Hqual & _).
    eexists _, _. split; [reflexivity|]. right; left.
    unfold quiet_step. rewrite Hb, Hh, Hl, Hvel, Hqual.
    repeat (split; [reflexivity|]).
    split; [exists []; rewrite app_nil_r; reflexivity|].
    destruct c; repeat constructor.
  - (* disconnect *)
    unfold exec, disconnect, bind, modify, gets, try_except, socket_close,
      emit, lift, logger, ret.
    unfold set_running, set_connected. simpl.
    destruct (socket w); [destruct close_ok|]; quiet_result.
  - (* start_streaming *)
    unfold exec, forget, start_streaming, bind, gets.
    destruct (_running w); [quiet_result|].
    destruct (connected w); [quiet_result|].
    rewrite connect_eq. destruct c; quiet_result.
  - (* stop_streaming *)
    unfold exec, stop_streaming, disconnect, bind, modify, gets, try_except,
      socket_close, emit, lift, logger, ret.
    unfold set_running, set_connected. simpl.
    destruct (_thread w); [destruct alive|];
      (destruct (socket w); [destruct close_ok|]); quiet_result.
  - (* the loop is entered *)
    eexists _, _. split; [reflexivity|]. left. repeat split.
  - (* a pass of the loop *)
    unfold exec, bind, gets. destruct (_running w) eqn:Hrun; [|quiet_result].
    destruct (socket w) as [s|] eqn:Hs.
    + destruct (recv_decode r) as [data|e] eqn:Hrecv.
      * destruct data as [|ch data'].
        -- rewrite (pass_peer_closed json_loads r c w s Hs Hrecv).
           destruct (connect_world_frame c w)
             as (_ & _ & Hb & Hh & Hl & Hvel & Hqual & _).
           eexists _, _. split; [reflexivity|]. right; left.
           unfold quiet_step. rewrite Hb, Hh, Hl, Hvel, Hqual.
           repeat (split; [reflexivity|]).
           split; [exists []; rewrite app_nil_r; reflexivity|].
           destruct c; repeat constructor.
        -- rewrite (pass_data json_loads r c w s _ Hs Hrecv) by discriminate.
           eexists _, _. split; [reflexivity|]. right; right.
           exists (ch :: data'). repeat split. discriminate.
      * assert (e = SocketTimeout \/ e <> SocketTimeout) as [->|Hne]
          by (destruct e; first [left; reflexivity | right; discriminate]).
        -- destruct r as [| |bs]; simpl in Hrecv; try discriminate.
           ++ rewrite (pass_timeout json_loads c w s Hs). quiet_result.
           ++ destruct (utf8_decode bs); discriminate.
        -- rewrite (pass_read_error json_loads r c w s e Hs Hrecv Hne), Hrun.
           destruct (connect_world_frame c w)
             as (_ & _ & Hb & Hh & Hl & Hvel & Hqual & _).
           eexists _, _. split; [reflexivity|]. right; left.
           unfold quiet_step. rewrite Hb, Hh, Hl, Hvel, Hqual.
           repeat (split; [reflexivity|]).
           split; [exists []; rewrite app_nil_r; reflexivity|].
           destruct c; repeat constructor.
    + rewrite (pass_no_socket json_loads r c w Hs). quiet_result.
  - (* get_latest_location *)
    quiet_result.
  - (* get_latest_velocity *)
    unfold exec, forget, get_latest_velocity, dict_copy, bind, gets. simpl.
    rewrite Hv. simpl.
    eexists _, _. split; [reflexivity|]. right; left.
    unfold quiet_step. simpl. repeat (split; [reflexivity|]).
    split; [eexists; reflexivity | constructor].
  - (* get_latest_quality *)
    unfold exec, forget, get_latest_quality, dict_copy, bind, gets. simpl.
    rewrite Hq. simpl.
    eexists _, _. split; [reflexivity|]. right; left.
    unfold quiet_step. simpl. repeat (split; [reflexivity|]).
    split; [eexists; reflexivity | constructor].
Qed.

End Steps.

Lemma proper_kind subj o :
  proper subj o ->
  match subj with
  | gps_location => exists lat lon alt, o = ObjLatLon lat lon alt
  | _ => exists d, o = ObjDict d /\ d <> ∅
  end.
Proof.
  destruct subj, o; simpl; intros H; try contradiction; eauto.
Qed.

(** A step that only extends the heap and treats each slot as
    [slot_step] says keeps the client well formed. *)
Lemma well_formed_step w w' evs :
  well_formed w ->
  (exists new, heap w' = heap w ++ new) ->
  (forall subj, slot_step subj w w' evs) ->
  well_formed w'.
Proof.
  intros (Hloc & [dv Hv] & [dq Hq]) [new Hheap] Hstep.
  split; [|split].
  - intros a Ha.
    destruct (Hstep gps_location) as [[Hsame _] | (a' & o & Ha' & Ho & Hp & _)];
      simpl in *.
    + rewrite Hsame in Ha. destruct (Hloc a Ha) as (lat & lon & alt & Hobj).
      exists lat, lon, alt. rewrite Hheap. apply lookup_app_l_Some. exact Hobj.
    + rewrite Ha' in Ha. injection Ha as ->.
      destruct (proper_kind gps_location o Hp) as (lat & lon & alt & ->). eauto.
  - destruct (Hstep gps_velocity) as [[Hsame _] | (a' & o & Ha' & Ho & Hp & _)];
      simpl in *.
    + injection Hsame as ->. exists dv. rewrite Hheap.
      apply lookup_app_l_Some. exact Hv.
    + injection Ha' as ->. destruct (proper_kind gps_velocity o Hp) as (d & -> & _). eauto.
  - destruct (Hstep gps_quality) as [[Hsame _] | (a' & o & Ha' & Ho & Hp & _)];
      simpl in *.
    + injection Hsame as ->. exists dq. rewrite Hheap.
      apply lookup_app_l_Some. exact Hq.
    + injection Ha' as ->. destruct (proper_kind gps_quality o Hp) as (d & -> & _). eauto.
Qed.

Section Invariant.

Variable json_loads : pystr -> option pyval.

(** What every operation does to the heap and to the slots. *)
Lemma exec_step o w :
  well_formed w ->
  exists w' evs,
    exec json_loads o w = (Ret tt, w', evs) /\
    (exists new, heap w' = heap w ++ new) /\
    (forall subj, slot_step subj w w' evs) /\
    well_formed w'.
Proof.
  intros Hwf.
  destruct (exec_cases json_loads o w Hwf)
    as (w' & evs & Hexec & [(_ & -> & ->) | [Hquiet | (data & _ & -> & ->)]]).
  - assert (exists new, heap (set_buffer [] w) = heap w ++ new) as Hheap
      by (exists []; rewrite app_nil_r; reflexivity).
    assert (forall subj, slot_step subj w (set_buffer [] w) []) as Hstep
      by (intros subj; left; split; [destruct subj; reflexivity | intros a []]).
    eexists _, _. split; [exact Hexec|]. split; [exact Hheap|].
    split; [exact Hstep|]. apply (well_formed_step w _ [] Hwf Hheap Hstep).
  - assert (exists new, heap w' = heap w ++ new) as Hheap
      by (destruct Hquiet as (_ & _ & _ & _ & H & _); exact H).
    assert (forall subj, slot_step subj w w' evs) as Hstep
      by (intros subj; apply quiet_slot_step; exact Hquiet).
    eexists _, _. split; [exact Hexec|]. split; [exact Hheap|].
    split; [exact Hstep|]. apply (well_formed_step w _ evs Hwf Hheap Hstep).
  - pose proof (feed_heap json_loads data w) as Hheap.
    pose proof (fun subj => feed_slot json_loads data w subj) as Hstep.
    eexists _, _. split; [exact Hexec|]. split; [exact Hheap|].
    split; [exact Hstep|]. apply (well_formed_step w _ _ Hwf Hheap Hstep).
Qed.

(** The state of a slot, step after step. *)
Lemma slot_inv_step subj w w' evs evs' :
  slot_inv subj w evs ->
  (exists new, heap w' = heap w ++ new) ->
  slot_step subj w w' evs' ->
  slot_inv subj w' (evs ++ evs').
Proof.
  intros Hinv [new Hheap] Hstep.
  destruct Hstep as [[Hsame Hquiet] | (a & o & Ha & Ho & Hp & Hin)].
  - destruct Hinv as [[Hnone Hnot] | (a & o & Ha & Ho & Hp & Hin)].
    + left. split.
      * destruct subj; simpl in *.
        -- congruence.
        -- injection Hsame as ->. rewrite Hheap. apply lookup_app_l_Some. exact Hnone.
        -- injection Hsame as ->. rewrite Hheap. apply lookup_app_l_Some. exact Hnone.
      * intros a Hin. apply in_app_or in Hin as [Hin|Hin];
          [apply (Hnot a Hin) | apply (Hquiet a Hin)].
    + right. exists a, o. split; [congruence|].
      split; [rewrite Hheap; apply lookup_app_l_Some; exact Ho|].
      split; [exact Hp|]. apply in_or_app. left. exact Hin.
  - right. exists a, o. repeat split; try assumption.
    apply in_or_app. right. exact Hin.
Qed.

(** A slot is "none" exactly when no report of its kind has been
    delivered. *)
Lemma slot_inv_none subj w evs :
  slot_inv subj w evs ->
  (slot_none subj w <-> forall a, ~ In (OnNext subj a) evs).
Proof.
  intros [[Hnone Hnot] | (a & o & Ha & Ho & Hp & Hin)].
  - split; auto.
  - split.
    + intros Hnone. exfalso.
      destruct subj; simpl in *.
      * congruence.
      * injection Ha as <-. rewrite Ho in Hnone. injection Hnone as ->.
        apply Hp. reflexivity.
      * injection Ha as <-. rewrite Ho in Hnone. injection Hnone as ->.
        apply Hp. reflexivity.
    + intros Hnot. exfalso. apply (Hnot a Hin).
Qed.

(** Any sequence of operations on a well-formed client returns normally,
    keeps the client well formed, only extends the heap, and keeps the
    state of each slot in step with the trace. *)
Lemma run_inv ops :
  forall w evs0,
    well_formed w ->
    (forall subj, slot_inv subj w evs0) ->
    exists w' evs,
      run json_loads ops w = (Ret tt, w', evs) /\
      well_formed w' /\
      (exists new, heap w' = heap w ++ new) /\
      (forall subj, slot_inv subj w' (evs0 ++ evs)).
Proof.
  induction ops as [|o rest IH]; intros w evs0 Hwf Hinv.
  - exists w, []. split; [reflexivity|]. split; [exact Hwf|].
    split; [exists []; rewrite app_nil_r; reflexivity|].
    rewrite app_nil_r. exact Hinv.
  - destruct (exec_step o w Hwf) as (w1 & e1 & Hexec & Hheap1 & Hstep & Hwf1).
    destruct (IH w1 (evs0 ++ e1) Hwf1) as (w2 & e2 & Hrun & Hwf2 & Hheap2 & Hinv2).
    { intros subj. apply (slot_inv_step subj w w1); auto. }
    exists w2, (e1 ++ e2). split.
    { cbn [run]. unfold bind. rewrite Hexec, Hrun. reflexivity. }
    split; [exact Hwf2|]. split.
    { destruct Hheap1 as [n1 H1], Hheap2 as [n2 H2]. exists (n1 ++ n2).
      rewrite H2, H1, <- app_assoc. reflexivity. }
    rewrite app_assoc. exact Hinv2.
Qed.

End Invariant.

Lemma init_well_formed : well_formed init.
Proof.
  split; [|split].
  - intros a [=].
  - exists ∅. reflexivity.
  - exists ∅. reflexivity.
Qed.

Lemma init_slot_inv subj : slot_inv subj init [].
Proof. left. split; [destruct subj; reflexivity | intros a []]. Qed.

(** C9. On a new client every slot holds "none" ([None] for the
    location, the empty dict for the velocity and the quality). After
    any sequence of operations (connecting, disconnecting, starting,
    stopping, passes of the loop with any answer of the socket, reading
    the cache) a slot holds "none" exactly when no report of its kind
    has been delivered yet; and once it holds a value, no further
    sequence of operations takes it back to "none". *)
Theorem cache_never_reverts (json_loads : pystr -> option pyval)
    (subj : subject) (ops more : list op) :
  slot_none subj init /\
  exists w evs,
    run json_loads ops init = (Ret tt, w, evs) /\
    (slot_none subj w <-> forall a, ~ In (OnNext subj a) evs) /\
    exists w' evs',
      run json_loads more w = (Ret tt, w', evs') /\
      (~ slot_none subj w -> ~ slot_none subj w').
Proof.
  split; [destruct subj; reflexivity|].
  destruct (run_inv json_loads ops init [] init_well_formed init_slot_inv)
    as (w & evs & Hrun & Hwf & _ & Hinv).
  simpl in Hinv.
  exists w, evs. split; [exact Hrun|].
  split; [apply slot_inv_none; apply Hinv|].
  destruct (run_inv json_loads more w evs Hwf Hinv)
    as (w' & evs' & Hrun' & _ & _ & Hinv').
  exists w', evs'. split; [exact Hrun'|].
  intros Hset Hnone.
  destruct (Hinv subj) as [[Hn _] | (a & o & _ & _ & _ & Hin)]; [auto|].
  destruct (slot_inv_none _ _ _ (Hinv' subj)) as [Hfwd _].
  apply (Hfwd Hnone a). apply in_or_app. left. exact Hin.
Qed.

Lemma contains_nl_app s1 s2 :
  contains_nl (s1 ++ s2) = contains_nl s1 || contains_nl s2.
Proof. unfold contains_nl. apply existsb_app. Qed.

(** C10. A pass that finds the connection lost leaves the buffer as it
    is, whatever the reconnection attempt answers. The partial line in
    it is then completed by the first text of the next read: the first
    line handed to the decoder is the buffered text followed by the text
    up to the first line feed. Of all the operations on a client only
    the entry into a new loop empties the buffer: every other one leaves
    it alone or, when text arrives, keeps what follows the last line
    feed of buffer plus text. *)
Theorem partial_line_kept_across_reconnect (json_loads : pystr -> option pyval)
    (w : world) (s : nat) (r : recv_result) (c : connect_result) :
  socket w = Some s ->
  lost_connection r ->
  (exists w' evs,
     _gps_loop_body json_loads r c w = (Ret tt, w', evs) /\
     buffer w' = buffer w /\
     forall r2 c2 d1 rest,
       contains_nl (buffer w) = false ->
       contains_nl d1 = false ->
       recv_decode r2 = Ok (d1 ++ NL :: rest) ->
       _gps_loop_body json_loads r2 c2 w' =
       (Ret tt,
        (apply_steps
           (line_effect json_loads (buffer w ++ d1)
            :: (line_effect json_loads <$> (lines_rem rest).1))
           (set_buffer (lines_rem rest).2 w')).1,
        (apply_steps
           (line_effect json_loads (buffer w ++ d1)
            :: (line_effect json_loads <$> (lines_rem rest).1))
           (set_buffer (lines_rem rest).2 w')).2))
  /\
  (forall o w0,
     well_formed w0 ->
     exists w1 evs1,
       exec json_loads o w0 = (Ret tt, w1, evs1) /\
       ((o = LoopEnter /\ buffer w1 = [])
        \/ buffer w1 = buffer w0
        \/ exists data,
             data <> [] /\ buffer w1 = (lines_rem (buffer w0 ++ data)).2)).
Proof.
  intros Hs Hlost. split.
  - assert (exists w' evs,
              _gps_loop_body json_loads r c w = (Ret tt, w', evs) /\
              buffer w' = buffer w /\ socket w' <> None)
      as (w' & evs & Hpass & Hbuf & Hsock).
    { assert (socket w <> None) as Hsome by (rewrite Hs; discriminate).
      destruct (connect_world_frame c w) as (_ & _ & Hb & _ & _ & _ & _ & _ & Hsk).
      unfold lost_connection in Hlost.
      destruct (recv_decode r) as [data|e] eqn:Hrecv.
      - subst data. rewrite (pass_peer_closed json_loads r c w s Hs Hrecv).
        eexists _, _. split; [reflexivity|]. split; [exact Hb | auto].
      - rewrite (pass_read_error json_loads r c w s e Hs Hrecv Hlost).
        eexists _, _. split; [reflexivity|].
        destruct (_running w); split; auto. }
    exists w', evs. split; [exact Hpass|]. split; [exact Hbuf|].
    intros r2 c2 d1 rest Hnl Hnl1 Hrecv2.
    destruct (socket w') as [s'|] eqn:Hs'; [|congruence].
    rewrite (pass_data json_loads r2 c2 w' s' _ Hs' Hrecv2)
      by (destruct d1; discriminate).
    unfold feed. rewrite Hbuf, app_assoc.
    rewrite lines_rem_first by (rewrite contains_nl_app, Hnl, Hnl1; reflexivity).
    reflexivity.
  - intros o w0 Hwf.
    destruct (exec_cases json_loads o w0 Hwf)
      as (w1 & evs1 & Hexec & [(-> & -> & _) | [Hquiet | (data & Hne & -> & _)]]).
    + eexists _, _. split; [exact Hexec|]. left. split; reflexivity.
    + eexists _, _. split; [exact Hexec|]. right; left. apply Hquiet.
    + eexists _, _. split; [exact Hexec|]. right; right.
      exists data. split; [exact Hne | apply feed_frame].
Qed.

(** A streaming client with the beginning of the TPV line in its buffer
    satisfies the hypotheses of [partial_line_kept_across_reconnect]:
    the peer closes, the reconnection succeeds, and the rest of the line
    arrives on the new connection and completes it. *)
Lemma partial_line_kept_across_reconnect_witness :
  socket Sample.with_partial_line = Some 0%nat /\
  lost_connection (RecvData []) /\
  exists w' evs,
    _gps_loop_body Sample.json_loads (RecvData []) ConnectOk
      Sample.with_partial_line = (Ret tt, w', evs) /\
    buffer w' = buffer Sample.with_partial_line /\
    exists w'' evs'',
      _gps_loop_body Sample.json_loads
        (RecvData (Sample.tpv_read2 ++ Sample.tpv_read3)) ConnectOk w'
      = (Ret tt, w'', evs'') /\
      delivered (heap w'') evs'' =
        [ (gps_location, ObjLatLon Sample.f37_5 Sample.fm122_3 Sample.f10_0);
          (gps_velocity,
           ObjDict (velocity_dict Sample.f1_2 Sample.f90_0 PyNone)) ].
Proof.
  assert (lost_connection (RecvData [])) as Hlost by reflexivity.
  split; [reflexivity|]. split; [exact Hlost|].
  destruct (partial_line_kept_across_reconnect Sample.json_loads
              Sample.with_partial_line 0%nat (RecvData []) ConnectOk eq_refl Hlost)
    as [(w' & evs & Hpass & Hbuf & _) _].
  exists w', evs. split; [exact Hpass|]. split; [exact Hbuf|].
  assert (w' = connect_world ConnectOk Sample.with_partial_line) as ->.
  { rewrite (pass_peer_closed Sample.json_loads (RecvData []) ConnectOk
               Sample.with_partial_line 0%nat eq_refl eq_refl) in Hpass.
    injection Hpass as <- _. reflexivity. }
  eexists _, _. split; vm_compute; reflexivity.
Defined.

(** ** Reading the cache *)

(** Assigning an item through one reference leaves the object behind any
    other reference as it is. *)
Lemma dict_setitem_other a k v h b :
  a <> b -> dict_setitem a k v h !! b = h !! b.
Proof.
  intros Hne. unfold dict_setitem.
  destruct (h !! a) as [[lat lon alt|d]|]; try reflexivity.
  apply list_lookup_insert_ne. exact Hne.
Qed.

(** On the client that has a fix, [get_latest_location] returns the very
    reference the slot holds, the object at address 2, and creates no
    object: the caller is handed the cached object, not a copy of it. *)
Lemma get_latest_location_returns_cached_object :
  _latest_location Sample.with_fix = Some 2%nat /\
  heap Sample.with_fix !! 2%nat =
    Some (ObjLatLon Sample.f37_5 Sample.fm122_3 Sample.f10_0) /\
  get_latest_location Sample.with_fix = (Ret (Some 2%nat), Sample.with_fix, []).
Proof. repeat split; vm_compute; reflexivity. Qed.

(** C4, amended. On any client reached from a new one:
    [get_latest_velocity] and [get_latest_quality] return a new dict
    with the items of the cached one, at an address of its own, and an
    item assigned through it leaves the cached dict as it is;
    [get_latest_location] returns the reference held by the slot, that
    is the cached object itself. For all three, whatever the client does
    afterwards, the objects already on the heap stay as they are (a
    cache update makes a new object and points the slot to it), so a
    value returned earlier does not show a later update. *)
Theorem cache_accessors (json_loads : pystr -> option pyval) (ops : list op) :
  exists w evs,
    run json_loads ops init = (Ret tt, w, evs) /\
    get_latest_location w = (Ret (_latest_location w), w, []) /\
    (exists d,
       heap w !! _latest_velocity w = Some (ObjDict d) /\
       get_latest_velocity w =
         (Ret (length (heap w)), set_heap (heap w ++ [ObjDict d]) w, []) /\
       (heap w ++ [ObjDict d]) !! length (heap w) = Some (ObjDict d) /\
       length (heap w) <> _latest_velocity w /\
       forall k v,
         dict_setitem (length (heap w)) k v (heap w ++ [ObjDict d])
           !! _latest_velocity w = Some (ObjDict d)) /\
    (exists d,
       heap w !! _latest_quality w = Some (ObjDict d) /\
       get_latest_quality w =
         (Ret (length (heap w)), set_heap (heap w ++ [ObjDict d]) w, []) /\
       (heap w ++ [ObjDict d]) !! length (heap w) = Some (ObjDict d) /\
       length (heap w) <> _latest_quality w /\
       forall k v,
         dict_setitem (length (heap w)) k v (heap w ++ [ObjDict d])
           !! _latest_quality w = Some (ObjDict d)) /\
    (forall more,
       exists w' evs',
         run json_loads more w = (Ret tt, w', evs') /\
         forall a o, heap w !! a = Some o -> heap w' !! a = Some o).
Proof.
  destruct (run_inv json_loads ops init [] init_well_formed init_slot_inv)
    as (w & evs & Hrun & Hwf & _ & Hinv).
  exists w, evs. split; [exact Hrun|]. split; [reflexivity|].
  assert (forall a d,
            heap w !! a = Some (ObjDict d) ->
            dict_copy a w =
              (Ret (length (heap w)), set_heap (heap w ++ [ObjDict d]) w, []) /\
            (heap w ++ [ObjDict d]) !! length (heap w) = Some (ObjDict d) /\
            length (heap w) <> a /\
            forall k v,
              dict_setitem (length (heap w)) k v (heap w ++ [ObjDict d]) !! a
              = Some (ObjDict d)) as Hcopy.
  { intros a d Ha.
    assert (length (heap w) <> a) as Hne
      by (apply lookup_lt_Some in Ha; lia).
    split; [unfold dict_copy; rewrite Ha; reflexivity|].
    split; [apply lookup_fresh|]. split; [exact Hne|].
    intros k v. rewrite dict_setitem_other by exact Hne.
    apply lookup_app_l_Some. exact Ha. }
  destruct Hwf as (Hloc & [dv Hv] & [dq Hq]).
  split; [|split].
  - exists dv. split; [exact Hv|].
    destruct (Hcopy _ _ Hv) as (H1 & H2 & H3 & H4).
    split; [unfold get_latest_velocity, bind, gets; rewrite H1; reflexivity|].
    auto.
  - exists dq. split; [exact Hq|].
    destruct (Hcopy _ _ Hq) as (H1 & H2 & H3 & H4).
    split; [unfold get_latest_quality, bind, gets; rewrite H1; reflexivity|].
    auto.
  - intros more.
    destruct (run_inv json_loads more w evs) as (w' & evs' & Hrun' & _ & [new Hheap] & _).
    { split; [exact Hloc|]. split; eauto. }
    { exact Hinv. }
    exists w', evs'. split; [exact Hrun'|].
    intros a o Ha. rewrite Hheap. apply lookup_app_l_Some. exact Ha.
Qed.

(** * Further properties of the client *)

(** ** Reads of ASCII text *)

(** ASCII bytes decode to themselves. *)
Lemma utf8_decode_ascii bs :
  is_ascii bs -> utf8_decode bs = Some (byte_val <$> bs).
Proof.
  induction 1 as [|b rest Hb _ IH]; [reflexivity|].
  cbn [utf8_decode]. apply Z.ltb_lt in Hb. rewrite Hb, IH. reflexivity.
Qed.

Lemma is_ascii_concat chunks :
  Forall is_ascii chunks -> is_ascii (concat chunks).
Proof.
  induction 1 as [|bs rest Hbs _ IH]; [constructor|].
  simpl. apply Forall_app. split; assumption.
Qed.

(** X2. A stream of ASCII bytes, which is what gpsd sends, may be cut
    into reads anywhere: when every read brings at least one byte, the
    loop run on the successive reads ends in the same world, with the
    same trace, as the loop run on one read of the whole stream, and
    that is the world in which the text of the stream has been fed to
    the buffer. *)
Theorem ascii_reads_any_split (json_loads : pystr -> option pyval)
    (w : world) (s : nat) (chunks : list (list byte))
    (inputs : list (recv_result * connect_result)) (c : connect_result) :
  _running w = true ->
  socket w = Some s ->
  chunks <> [] ->
  Forall (fun bs => bs <> [] /\ is_ascii bs) chunks ->
  inputs.*1 = RecvData <$> chunks ->
  _gps_loop_from json_loads inputs w =
    _gps_loop_from json_loads [(RecvData (concat chunks), c)] w
  /\
  _gps_loop_from json_loads inputs w =
    (Ret tt,
     (feed json_loads (byte_val <$> concat chunks) w).1,
     (feed json_loads (byte_val <$> concat chunks) w).2).
Proof.
  intros Hrun Hsock Hne Hall Hin.
  assert (Forall (fun bs => bs <> [] /\ is_Some (utf8_decode bs)) chunks) as Hdec.
  { eapply Forall_impl; [exact Hall|]. intros bs [Hbs Hascii]. split; [exact Hbs|].
    rewrite (utf8_decode_ascii _ Hascii). eexists. reflexivity. }
  assert (utf8_decode (concat chunks) = Some (byte_val <$> concat chunks)) as Hwhole.
  { apply utf8_decode_ascii, is_ascii_concat.
    eapply Forall_impl; [exact Hall|]. intros bs [_ H]. exact H. }
  destruct chunks as [|bs rest]; [congruence|].
  destruct (loop_feeds json_loads rest bs inputs w s Hrun Hsock Hdec Hin)
    as (data & Hdata & Hdne & Hloop).
  rewrite Hwhole in Hdata. injection Hdata as <-.
  split; [|exact Hloop].
  rewrite Hloop. symmetry.
  cbn [_gps_loop_from]. unfold bind at 1. unfold gets at 1. rewrite Hrun.
  unfold bind at 1.
  rewrite (pass_data json_loads (RecvData (concat (bs :: rest))) c w s _ Hsock)
    by (unfold recv_decode; try rewrite Hwhole; auto).
  simpl. rewrite app_nil_r. reflexivity.
Qed.

(** The three reads of the sample TPV line are ASCII and not empty. *)
Lemma ascii_reads_any_split_witness :
  Forall (fun bs => bs <> [] /\ is_ascii bs)
    [Sample.tpv_read1; Sample.tpv_read2; Sample.tpv_read3] /\
  _gps_loop_from Sample.json_loads
    [(RecvData Sample.tpv_read1, ConnectOk);
     (RecvData Sample.tpv_read2, ConnectFailed);
     (RecvData Sample.tpv_read3, ConnectOk)] Sample.streaming =
  _gps_loop_from Sample.json_loads
    [(RecvData (concat [Sample.tpv_read1; Sample.tpv_read2; Sample.tpv_read3]),
      ConnectOk)] Sample.streaming.
Proof.
  assert (Forall (fun bs => bs <> [] /\ is_ascii bs)
            [Sample.tpv_read1; Sample.tpv_read2; Sample.tpv_read3]) as Hall.
  { repeat constructor; try discriminate;
      (unfold is_ascii; apply Forall_forall; intros b Hb;
       vm_compute in Hb; repeat (apply elem_of_cons in Hb as [->|Hb]; [reflexivity|]);
       inversion Hb). }
  split; [exact Hall|].
  exact (proj1 (ascii_reads_any_split Sample.json_loads Sample.streaming 0%nat
                  [Sample.tpv_read1; Sample.tpv_read2; Sample.tpv_read3]
                  [(RecvData Sample.tpv_read1, ConnectOk);
                   (RecvData Sample.tpv_read2, ConnectFailed);
                   (RecvData Sample.tpv_read3, ConnectOk)]
                  ConnectOk eq_refl eq_refl ltac:(discriminate) Hall eq_refl)).
Defined.

(** ** The order of the reports *)

Lemma delivered_app h evs1 evs2 :
  delivered h (evs1 ++ evs2) = delivered h evs1 ++ delivered h evs2.
Proof. unfold delivered. apply omap_app. Qed.

Lemma delivered_quiet h evs :
  Forall (fun e => is_delivery e = false) evs -> delivered h evs = [].
Proof.
  induction 1 as [|e rest He _ IH]; [reflexivity|].
  unfold delivered in *.
  destruct e; try discriminate He; simpl; exact IH.
Qed.

(** Objects added to the heap later do not change what a trace
    delivered. *)
Lemma delivered_extend h more evs :
  valid_trace h evs -> delivered (h ++ more) evs = delivered h evs.
Proof.
  induction 1 as [|e rest He _ IH]; [reflexivity|].
  assert (report_of (h ++ more) e = report_of h e) as Hre.
  { destruct e; try reflexivity. simpl. rewrite lookup_app_l by exact He.
    reflexivity. }
  unfold delivered in *.
  change (omap (report_of (h ++ more)) (e :: rest))
    with (match report_of (h ++ more) e with
          | Some y => y :: omap (report_of (h ++ more)) rest
          | None => omap (report_of (h ++ more)) rest
          end).
  rewrite Hre, IH. reflexivity.
Qed.

Lemma valid_trace_extend h more evs :
  valid_trace h evs -> valid_trace (h ++ more) evs.
Proof.
  unfold valid_trace. intros H. eapply Forall_impl; [exact H|]. intros e He.
  destruct e; try exact I. rewrite length_app. lia.
Qed.

Lemma valid_trace_quiet h evs :
  Forall (fun e => is_delivery e = false) evs -> valid_trace h evs.
Proof.
  unfold valid_trace. intros H. eapply Forall_impl; [exact H|]. intros e He.
  destruct e; try exact I. discriminate He.
Qed.

Lemma published_events_valid rs h more :
  valid_trace (h ++ rs.*2 ++ more) (published_events rs h).
Proof.
  revert h. induction rs as [|[subj o] rest IH]; intros h; [constructor|].
  constructor.
  - rewrite length_app. simpl. rewrite length_app. simpl. lia.
  - specialize (IH (h ++ [o])). rewrite <- app_assoc in IH. exact IH.
Qed.

(** The data path delivers the reports of its steps, in order, and
    nothing else. *)
Lemma apply_steps_delivered steps :
  forall w,
    Forall (fun st => Forall (fun e => is_delivery e = false) st.2) steps ->
    delivered (heap (apply_steps steps w).1) (apply_steps steps w).2
      = concat (fst <$> steps)
    /\ valid_trace (heap (apply_steps steps w).1) (apply_steps steps w).2.
Proof.
  induction steps as [|[rs logs] rest IH]; intros w Hall.
  - split; [reflexivity | constructor].
  - apply Forall_cons in Hall as [Hlogs Hall]. simpl in Hlogs.
    cbn [apply_steps fmap list_fmap concat fst].
    destruct (IH (published rs w) Hall) as [Hdel Hvalid].
    destruct (apply_steps_frame rest (published rs w))
      as (_ & _ & _ & _ & _ & _ & _ & new & Hheap).
    destruct (apply_steps rest (published rs w)) as [w' evs]. simpl in *.
    assert (heap w' = heap w ++ rs.*2 ++ new) as Hh
      by (rewrite Hheap, published_heap, <- app_assoc; reflexivity).
    split.
    + rewrite !delivered_app, Hdel, (delivered_quiet _ _ Hlogs). simpl.
      rewrite Hh, delivered_published_gen. reflexivity.
    + apply Forall_app. split.
      * rewrite Hh. apply published_events_valid.
      * apply Forall_app. split; [apply valid_trace_quiet; exact Hlogs | exact Hvalid].
Qed.

Lemma line_effects_quiet json_loads (ls : list pystr) :
  Forall (fun st : list report * list event =>
            Forall (fun e => is_delivery e = false) st.2)
    (line_effect json_loads <$> ls).
Proof.
  apply Forall_fmap, Forall_forall. intros line _. apply line_effect_proper.
Qed.

(** What a [feed] delivers. *)
Lemma feed_delivered json_loads data w :
  delivered (heap (feed json_loads data w).1) (feed json_loads data w).2
    = concat (line_reports json_loads <$> (lines_rem (buffer w ++ data)).1)
  /\ valid_trace (heap (feed json_loads data w).1) (feed json_loads data w).2.
Proof.
  unfold feed. rewrite apply_steps_set_buffer. simpl fst. simpl snd.
  destruct (apply_steps_delivered
              (line_effect json_loads <$> (lines_rem (buffer w ++ data)).1) w
              (line_effects_quiet json_loads _)) as [Hdel Hvalid].
  split; [|exact Hvalid].
  change (heap (set_buffer (lines_rem (buffer w ++ data)).2
                  (apply_steps
                     (line_effect json_loads <$> (lines_rem (buffer w ++ data)).1)
                     w).1))
    with (heap (apply_steps
                  (line_effect json_loads <$> (lines_rem (buffer w ++ data)).1)
                  w).1).
  rewrite Hdel. rewrite <- list_fmap_compose. reflexivity.
Qed.

(** X3. Reports are delivered in the order of the wire. A pass of the
    loop that reads some text delivers exactly the reports of the
    complete lines of buffer plus text, line after line and within a
    line in the order position, velocity; blank lines and lines that do
    not decode contribute nothing; what follows the last line feed stays
    in the buffer. *)
Theorem reports_in_wire_order (json_loads : pystr -> option pyval)
    (w : world) (s : nat) (r : recv_result) (c : connect_result) (data : pystr) :
  socket w = Some s ->
  recv_decode r = Ok data ->
  data <> [] ->
  exists w' evs,
    _gps_loop_body json_loads r c w = (Ret tt, w', evs) /\
    delivered (heap w') evs =
      concat (line_reports json_loads <$> (lines_rem (buffer w ++ data)).1) /\
    buffer w' = (lines_rem (buffer w ++ data)).2.
Proof.
  intros Hs Hr Hd.
  rewrite (pass_data json_loads r c w s data Hs Hr Hd).
  eexists _, _. split; [reflexivity|].
  split; [apply feed_delivered | apply feed_frame].
Qed.

(** The sample read with a malformed line in front satisfies the
    hypotheses of [reports_in_wire_order]: the position report comes
    first, the velocity report second. *)
Lemma reports_in_wire_order_witness :
  socket Sample.streaming = Some 0%nat /\
  recv_decode (RecvData Sample.garbage_then_tpv)
    = Ok (Sample.garbage_line ++ NL :: Sample.tpv_line ++ [NL]) /\
  exists w' evs,
    _gps_loop_body Sample.json_loads (RecvData Sample.garbage_then_tpv) ConnectOk
      Sample.streaming = (Ret tt, w', evs) /\
    delivered (heap w') evs =
      [ (gps_location, ObjLatLon Sample.f37_5 Sample.fm122_3 Sample.f10_0);
        (gps_velocity, ObjDict (velocity_dict Sample.f1_2 Sample.f90_0 PyNone)) ].
Proof.
  assert (recv_decode (RecvData Sample.garbage_then_tpv)
          = Ok (Sample.garbage_line ++ NL :: Sample.tpv_line ++ [NL])) as Hr
    by (vm_compute; reflexivity).
  split; [reflexivity|]. split; [exact Hr|].
  destruct (reports_in_wire_order Sample.json_loads Sample.streaming 0%nat
              (RecvData Sample.garbage_then_tpv) ConnectOk _ eq_refl Hr
              ltac:(discriminate))
    as (w' & evs & Hpass & Hdel & _).
  exists w', evs. split; [exact Hpass|]. rewrite Hdel.
  vm_compute. reflexivity.
Defined.

(** ** Invariants of the runs of a client *)

Section Runs.

Variable json_loads : pystr -> option pyval.

(** A property of the world and the trace that every operation keeps
    holds after every sequence of operations. *)
Lemma run_invariant (I : world -> list event -> Prop) :
  (forall o w evs w' evs',
     well_formed w -> I w evs ->
     exec json_loads o w = (Ret tt, w', evs') ->
     I w' (evs ++ evs')) ->
  forall ops w evs0,
    well_formed w -> I w evs0 ->
    exists w' evs,
      run json_loads ops w = (Ret tt, w', evs) /\
      well_formed w' /\
      I w' (evs0 ++ evs).
Proof.
  intros Hstep. induction ops as [|o rest IH]; intros w evs0 Hwf HI.
  - exists w, []. rewrite app_nil_r. auto.
  - destruct (exec_step json_loads o w Hwf) as (w1 & e1 & Hexec & _ & _ & Hwf1).
    destruct (IH w1 (evs0 ++ e1) Hwf1 (Hstep o w evs0 w1 e1 Hwf HI Hexec))
      as (w2 & e2 & Hrun & Hwf2 & HI2).
    exists w2, (e1 ++ e2). split.
    { cbn [run]. unfold bind. rewrite Hexec, Hrun. reflexivity. }
    split; [exact Hwf2|]. rewrite app_assoc. exact HI2.
Qed.

End Runs.

(** ** The shape of the reports *)

Lemma or_zero_not_None v : is_None (or_zero v) = false.
Proof. destruct v; reflexivity. Qed.

Lemma velocity_dict_shaped speed track climb :
  shaped (gps_velocity, ObjDict (velocity_dict speed track climb)).
Proof.
  simpl. split; [reflexivity|].
  destruct (velocity_dict_fields speed track climb) as (H1 & H2 & H3).
  repeat split; eexists; (split; [eassumption | apply or_zero_not_None]).
Qed.

Lemma decode_tpv_shaped data rs :
  decode_tpv data = Ok rs -> Forall shaped rs.
Proof.
  unfold decode_tpv.
  destruct (py_lt _ 2) as [[|]|]; try discriminate.
  - intros [= <-]. constructor.
  - destruct (py_ge _ 3) as [fix3d|]; try discriminate. intros [= <-].
    apply Forall_app. split.
    + destruct (negb (is_None (dict_get data (str "lat") PyNone))) eqn:Hlat;
        destruct (negb (is_None (dict_get data (str "lon") PyNone))) eqn:Hlon;
        simpl; constructor; [|constructor].
      simpl. apply negb_true_iff in Hlat, Hlon. auto.
    + destruct (_ || _); constructor; [apply velocity_dict_shaped | constructor].
Qed.

Lemma decode_sky_shaped data rs :
  decode_sky data = Ok rs -> Forall shaped rs.
Proof.
  unfold decode_sky.
  destruct (py_len _) as [n_sats|] eqn:Hlen; try discriminate.
  destruct (py_iter _) as [sats|] eqn:Hiter; try discriminate.
  destruct (count_used sats) as [n_used|] eqn:Hcount; try discriminate.
  intros [= <-]. constructor; [|constructor].
  pose proof (py_len_iter _ _ _ Hlen Hiter) as ->.
  pose proof (count_used_bound _ _ Hcount) as Hbound.
  simpl. split; [reflexivity|].
  split; [exists (Z.of_nat (length sats)), n_used; repeat split; lia|].
  repeat split; eexists; reflexivity.
Qed.

Lemma line_reports_shaped json_loads line :
  Forall shaped (line_reports json_loads line).
Proof.
  unfold line_reports, line_effect. destruct (nonblank line); [|constructor].
  unfold decode_line.
  destruct (json_loads line) as [[ | | | | | |d]|]; try constructor.
  destruct (py_eq_str _ (str "TPV")).
  - destruct (decode_tpv d) as [rs|e] eqn:H; [|constructor].
    apply (decode_tpv_shaped _ _ H).
  - destruct (py_eq_str _ (str "SKY")); [|constructor].
    destruct (decode_sky d) as [rs|e] eqn:H; [|constructor].
    apply (decode_sky_shaped _ _ H).
Qed.

Lemma delivered_in h evs subj a o :
  In (OnNext subj a) evs -> h !! a = Some o -> In (subj, o) (delivered h evs).
Proof.
  intros Hin Ha. unfold delivered.
  apply list_elem_of_In, list_elem_of_omap. exists (OnNext subj a).
  split; [apply list_elem_of_In; exact Hin|]. simpl. rewrite Ha. reflexivity.
Qed.

Section Shapes.

Variable json_loads : pystr -> option pyval.

(** Every operation keeps the trace valid and the delivered reports
    well shaped. *)
Lemma shaped_step o w evs w' evs' :
  well_formed w ->
  valid_trace (heap w) evs /\ Forall shaped (delivered (heap w) evs) ->
  exec json_loads o w = (Ret tt, w', evs') ->
  valid_trace (heap w') (evs ++ evs') /\
  Forall shaped (delivered (heap w') (evs ++ evs')).
Proof.
  intros Hwf [Hvalid Hshaped] Hexec.
  destruct (exec_cases json_loads o w Hwf)
    as (w1 & e1 & Hexec1 & Hcases).
  rewrite Hexec in Hexec1. injection Hexec1 as <- <-.
  destruct Hcases as [(_ & -> & ->) | [Hquiet | (data & _ & -> & ->)]].
  - rewrite app_nil_r. split; assumption.
  - destruct Hquiet as (_ & _ & _ & _ & [new Hheap] & Hq).
    rewrite Hheap. split.
    + apply Forall_app. split;
        [apply valid_trace_extend; exact Hvalid | apply valid_trace_quiet; exact Hq].
    + rewrite delivered_app, (delivered_quiet _ _ Hq), app_nil_r.
      rewrite delivered_extend by exact Hvalid. exact Hshaped.
  - destruct (feed_heap json_loads data w) as [new Hheap].
    destruct (feed_delivered json_loads data w) as [Hdel Hv].
    split.
    + apply Forall_app. split; [|exact Hv].
      rewrite Hheap. apply valid_trace_extend. exact Hvalid.
    + rewrite delivered_app, Hdel. apply Forall_app. split.
      * rewrite Hheap, delivered_extend by exact Hvalid. exact Hshaped.
      * apply Forall_concat, Forall_fmap, Forall_forall. intros line _.
        apply line_reports_shaped.
Qed.

End Shapes.

(** X4. Whatever arrives on the socket, the reports a client delivers
    and the values its cache holds are well shaped: a position has a
    latitude and a longitude; a velocity dict has exactly the keys speed,
    track and climb, none of them [None]; a quality dict has exactly the
    keys satellites, satellites_used, hdop, vdop and pdop, with integer
    counts such that [0 <= satellites_used <= satellites]. After any
    sequence of operations on a new client every delivered report has
    this shape, and every slot holds "none" or an object of this
    shape. *)
Theorem reports_well_shaped (json_loads : pystr -> option pyval) (ops : list op) :
  exists w evs,
    run json_loads ops init = (Ret tt, w, evs) /\
    Forall shaped (delivered (heap w) evs) /\
    forall subj,
      slot_none subj w \/
      exists o, slot_object subj w = Some o /\ shaped (subj, o).
Proof.
  destruct (run_invariant json_loads
              (fun w evs => valid_trace (heap w) evs /\
                            Forall shaped (delivered (heap w) evs))
              (shaped_step json_loads) ops init [] init_well_formed)
    as (w & evs & Hrun & _ & _ & Hshaped).
  { split; constructor. }
  destruct (run_inv json_loads ops init [] init_well_formed init_slot_inv)
    as (w2 & evs2 & Hrun2 & _ & _ & Hinv).
  rewrite Hrun in Hrun2. injection Hrun2 as <- <-.
  simpl in Hshaped, Hinv.
  exists w, evs. split; [exact Hrun|]. split; [exact Hshaped|].
  intros subj.
  destruct (Hinv subj) as [[Hnone _] | (a & o & Ha & Ho & _ & Hin)];
    [left; exact Hnone | right].
  exists o. split.
  - unfold slot_object. rewrite Ha. exact Ho.
  - rewrite Forall_forall in Hshaped. apply Hshaped.
    apply list_elem_of_In. apply (delivered_in _ _ _ a); assumption.
Qed.

(** ** The cache holds the last report *)

Lemma last_delivery_app subj evs1 evs2 :
  last_delivery subj (evs1 ++ evs2) =
  match last_delivery subj evs2 with
  | Some o => Some o
  | None => last_delivery subj evs1
  end.
Proof.
  induction evs1 as [|e rest IH]; simpl.
  - destruct (last_delivery subj evs2); reflexivity.
  - rewrite IH. destruct (last_delivery subj evs2); reflexivity.
Qed.

Lemma slot_after_app subj evs1 evs2 old :
  slot_after subj (evs1 ++ evs2) old = slot_after subj evs2 (slot_after subj evs1 old).
Proof.
  unfold slot_after. rewrite last_delivery_app.
  destruct (last_delivery subj evs2); reflexivity.
Qed.

Lemma last_delivery_quiet subj evs :
  Forall (fun e => is_delivery e = false) evs -> last_delivery subj evs = None.
Proof.
  induction 1 as [|e rest He _ IH]; [reflexivity|].
  simpl. rewrite IH. destruct e; try reflexivity. discriminate He.
Qed.

Lemma slot_after_quiet subj evs old :
  Forall (fun e => is_delivery e = false) evs -> slot_after subj evs old = old.
Proof. intros H. unfold slot_after. rewrite (last_delivery_quiet _ _ H). reflexivity. Qed.

Lemma slot_after_cons subj e evs old :
  slot_after subj (e :: evs) old = slot_after subj evs (slot_after subj [e] old).
Proof. apply (slot_after_app subj [e] evs). Qed.

(** Each report goes into the slot of its kind as it is delivered. *)
Lemma published_latest rs subj :
  forall w,
    slot_addr subj (published rs w) =
    slot_after subj (published_events rs (heap w)) (slot_addr subj w).
Proof.
  induction rs as [|[s o] rest IH]; intros w; [reflexivity|].
  cbn [published published_events]. rewrite IH, slot_after_cons.
  assert (heap (set_slot s (length (heap w)) (set_heap (heap w ++ [o]) w))
          = heap w ++ [o]) as -> by (destruct s; reflexivity).
  f_equal. destruct s, subj; reflexivity.
Qed.

Lemma apply_steps_latest steps subj :
  forall w,
    Forall (fun st : list report * list event =>
              Forall (fun e => is_delivery e = false) st.2) steps ->
    slot_addr subj (apply_steps steps w).1 =
    slot_after subj (apply_steps steps w).2 (slot_addr subj w).
Proof.
  induction steps as [|[rs logs] rest IH]; intros w Hall; [reflexivity|].
  apply Forall_cons in Hall as [Hlogs Hall]. simpl in Hlogs.
  cbn [apply_steps]. specialize (IH (published rs w) Hall).
  destruct (apply_steps rest (published rs w)) as [w' evs]. simpl in *.
  rewrite IH, !slot_after_app, (slot_after_quiet _ logs _ Hlogs), published_latest.
  reflexivity.
Qed.

Lemma feed_latest json_loads data w subj :
  slot_addr subj (feed json_loads data w).1 =
  slot_after subj (feed json_loads data w).2 (slot_addr subj w).
Proof.
  unfold feed. rewrite apply_steps_set_buffer. simpl fst. simpl snd.
  assert (forall w0 b, slot_addr subj (set_buffer b w0) = slot_addr subj w0) as Hsb
    by (intros; destruct subj; reflexivity).
  rewrite Hsb. apply apply_steps_latest, line_effects_quiet.
Qed.

Lemma last_delivery_valid h subj evs a :
  valid_trace h evs -> last_delivery subj evs = Some a -> is_Some (h !! a).
Proof.
  induction 1 as [|e rest He _ IH]; [discriminate|].
  simpl. destruct (last_delivery subj rest) as [a'|].
  - intros [= <-]. apply IH. reflexivity.
  - destruct e; try discriminate.
    destruct (subject_eqb _ subj); [|discriminate].
    intros [= <-]. apply lookup_lt_is_Some_2. exact He.
Qed.

(** In a valid trace the last report of a kind is the object of the last
    delivery of that kind. *)
Lemma last_report_delivered h subj evs :
  valid_trace h evs ->
  last_report subj (delivered h evs) = last_delivery subj evs ≫= (h !!.).
Proof.
  induction 1 as [|e rest He Hrest IH]; [reflexivity|].
  pose proof (fun a => last_delivery_valid h subj rest a Hrest) as Hsome.
  unfold delivered in *.
  change (omap (report_of h) (e :: rest))
    with (match report_of h e with
          | Some y => y :: omap (report_of h) rest
          | None => omap (report_of h) rest
          end).
  destruct e; try (simpl; rewrite IH;
    destruct (last_delivery subj rest); reflexivity).
  simpl in He. cbn [report_of last_delivery].
  match goal with
  | |- context [pair _ <$> ?x] => destruct x as [obj|] eqn:Ho
  end.
  - cbn [fmap option_fmap option_map last_report]. rewrite IH.
    destruct (last_delivery subj rest) as [a|].
    + destruct (Hsome a eq_refl) as [o' Ho']. simpl. rewrite Ho'. reflexivity.
    + simpl. destruct (subject_eqb _ subj); [simpl; exact (eq_sym Ho) | reflexivity].
  - apply lookup_ge_None in Ho. unfold addr in *. lia.
Qed.

Section Latest.

Variable json_loads : pystr -> option pyval.

Lemma latest_step (start : subject -> option addr) o w evs w' evs' :
  well_formed w ->
  (forall subj, slot_addr subj w = slot_after subj evs (start subj)) ->
  exec json_loads o w = (Ret tt, w', evs') ->
  forall subj, slot_addr subj w' = slot_after subj (evs ++ evs') (start subj).
Proof.
  intros Hwf Hinv Hexec subj.
  destruct (exec_cases json_loads o w Hwf)
    as (w1 & e1 & Hexec1 & Hcases).
  rewrite Hexec in Hexec1. injection Hexec1 as <- <-.
  rewrite slot_after_app, <- Hinv.
  destruct Hcases as [(_ & -> & ->) | [Hquiet | (data & _ & -> & ->)]].
  - destruct subj; reflexivity.
  - destruct Hquiet as (_ & Hl & Hv & Hq & _ & Hquiet).
    rewrite (slot_after_quiet _ _ _ Hquiet). destruct subj; simpl; congruence.
  - apply feed_latest.
Qed.

End Latest.

(** X5. The cache is never behind the subscribers. After any sequence
    of operations on a new client, with any data on the socket, each slot
    refers to the very object passed by the last delivery of its kind, and
    still holds its initial value when there was none: the getters return
    the last position, velocity and quality that were published, never an
    older one. *)
Theorem cache_holds_latest_report (json_loads : pystr -> option pyval)
    (ops : list op) :
  exists w evs,
    run json_loads ops init = (Ret tt, w, evs) /\
    forall subj,
      slot_addr subj w = slot_after subj evs (slot_addr subj init) /\
      match last_report subj (delivered (heap w) evs) with
      | Some o => slot_object subj w = Some o
      | None => slot_none subj w
      end.
Proof.
  destruct (run_invariant json_loads
              (fun w evs =>
                 (valid_trace (heap w) evs /\
                  Forall shaped (delivered (heap w) evs)) /\
                 (exists new, heap w = heap init ++ new) /\
                 forall subj, slot_addr subj w = slot_after subj evs (slot_addr subj init)))
    with (ops := ops) (w := init) (evs0 := @nil event)
    as (w & evs & Hrun & _ & [Hvalid _] & [new Hheap] & Hlatest).
  - intros o w evs w' evs' Hwf (Hshape & [new Hheap] & Hlatest) Hexec.
    split; [exact (shaped_step json_loads o w evs w' evs' Hwf Hshape Hexec)|].
    split; [|exact (latest_step json_loads _ o w evs w' evs' Hwf Hlatest Hexec)].
    destruct (exec_step json_loads o w Hwf) as (w2 & e2 & Hexec2 & [more Hmore] & _).
    rewrite Hexec in Hexec2. injection Hexec2 as <- <-.
    exists (new ++ more). rewrite Hmore, Hheap, app_assoc. reflexivity.
  - exact init_well_formed.
  - split; [split; constructor|]. split; [exists []; reflexivity|].
    intros subj. reflexivity.
  - simpl in Hvalid, Hlatest. exists w, evs. split; [exact Hrun|].
    intros subj. split; [exact (Hlatest subj)|].
    rewrite (last_report_delivered _ _ _ Hvalid).
    specialize (Hlatest subj). unfold slot_after in Hlatest.
    destruct (last_delivery subj evs) as [a|] eqn:Hlast; simpl.
    + destruct (last_delivery_valid _ _ _ _ Hvalid Hlast) as [o Ho].
      rewrite Ho. unfold slot_object. rewrite Hlatest. simpl. exact Ho.
    + destruct subj; simpl in *.
      * exact Hlatest.
      * injection Hlatest as ->. rewrite Hheap. reflexivity.
      * injection Hlatest as ->. rewrite Hheap. reflexivity.
Qed.

(** ** The buffer holds no complete line *)

Lemma lines_rem_rest s : contains_nl (lines_rem s).2 = false.
Proof.
  induction s as [|c r IH]; [reflexivity|].
  simpl. destruct (lines_rem r) as [ls rem]. simpl in IH.
  destruct (c =? NL) eqn:Hc; [exact IH|].
  destruct ls as [|l ls']; simpl; [|exact IH].
  change (contains_nl (c :: rem)) with ((NL =? c) || contains_nl rem).
  rewrite Z.eqb_sym, Hc, IH. reflexivity.
Qed.

(** X6. No complete line ever waits in the buffer: after any sequence of
    operations on a new client, with any data on the socket, the buffer
    contains no line feed. Every line is decoded in the pass in which its
    line feed arrives. *)
Theorem buffer_holds_no_complete_line (json_loads : pystr -> option pyval)
    (ops : list op) :
  exists w evs,
    run json_loads ops init = (Ret tt, w, evs) /\
    contains_nl (buffer w) = false /\
    lines_rem (buffer w) = ([], buffer w).
Proof.
  destruct (run_invariant json_loads
              (fun w _ => contains_nl (buffer w) = false))
    with (ops := ops) (w := init) (evs0 := @nil event)
    as (w & evs & Hrun & _ & Hbuf).
  - intros o w evs w' evs' Hwf Hbuf Hexec.
    destruct (exec_cases json_loads o w Hwf) as (w1 & e1 & Hexec1 & Hcases).
    rewrite Hexec in Hexec1. injection Hexec1 as <- <-.
    destruct Hcases as [(_ & -> & ->) | [Hquiet | (data & _ & -> & ->)]].
    + reflexivity.
    + destruct Hquiet as (Hb & _). rewrite Hb. exact Hbuf.
    + destruct (feed_frame json_loads data w) as (_ & _ & ->).
      apply lines_rem_rest.
  - exact init_well_formed.
  - reflexivity.
  - exists w, evs. split; [exact Hrun|]. split; [exact Hbuf|].
    apply lines_rem_partial. exact Hbuf.
Qed.

(** ** The loop in any state *)

Lemma recv_decode_timeout r : recv_decode r = Err SocketTimeout -> r = RecvTimeout.
Proof.
  destruct r as [| |bs]; simpl; try discriminate; [reflexivity|].
  destruct (utf8_decode bs); discriminate.
Qed.

Section AnyState.

Variable json_loads : pystr -> option pyval.

(** The five ways through the body of the loop. *)
Lemma pass_cases r c w :
  exists w' evs,
    _gps_loop_body json_loads r c w = (Ret tt, w', evs) /\
    ((socket w = None /\ w' = w /\
      evs = [Log ERROR "Socket is None in GPS loop"; Sleep 1000])
     \/ (socket w <> None /\ r = RecvTimeout /\ w' = w /\ evs = [])
     \/ (socket w <> None /\
         (exists e, recv_decode r = Err e /\ e <> SocketTimeout) /\
         w' = (if _running w then connect_world c w else w) /\
         evs = Log WARNING "Socket read error" ::
               (if _running w then reconnect_events 500 c w else []))
     \/ (socket w <> None /\ recv_decode r = Ok [] /\
         w' = connect_world c w /\
         evs = Log WARNING "No data from gpsd, reconnecting..." ::
               reconnect_events 1000 c w)
     \/ (socket w <> None /\
         exists data, recv_decode r = Ok data /\ data <> [] /\
           w' = (feed json_loads data w).1 /\
           evs = (feed json_loads data w).2)).
Proof.
  destruct (socket w) as [s|] eqn:Hs.
  - assert (Some s <> None) as Hsome by discriminate.
    destruct (recv_decode r) as [data|e] eqn:Hrecv.
    + destruct data as [|ch data'].
      * rewrite (pass_peer_closed json_loads r c w s Hs Hrecv).
        eexists _, _. split; [reflexivity|]. do 3 right. left. auto.
      * rewrite (pass_data json_loads r c w s _ Hs Hrecv) by discriminate.
        eexists _, _. split; [reflexivity|]. do 4 right.
        split; [exact Hsome|]. exists (ch :: data'). repeat split. discriminate.
    + assert (e = SocketTimeout \/ e <> SocketTimeout) as [->|Hne]
        by (destruct e; first [left; reflexivity | right; discriminate]).
      * apply recv_decode_timeout in Hrecv as ->.
        rewrite (pass_timeout json_loads c w s Hs).
        eexists _, _. split; [reflexivity|]. right; left. auto.
      * rewrite (pass_read_error json_loads r c w s e Hs Hrecv Hne).
        eexists _, _. split; [reflexivity|]. do 2 right. left.
        split; [exact Hsome|]. split; [exists e; auto|]. auto.
  - rewrite (pass_no_socket json_loads r c w Hs).
    eexists _, _. split; [reflexivity|]. left. auto.
Qed.

Lemma line_effect_no_socket_event line :
  Forall (fun e => is_socket_event e = false) (line_effect json_loads line).2.
Proof.
  unfold line_effect. destruct (nonblank line); [|constructor].
  unfold decode_line.
  destruct (json_loads line) as [[ | | | | | |d]|]; try solve [repeat constructor].
  destruct (if py_eq_str _ (str "TPV") then _ else _) as [rs|e];
    [constructor | destruct e; repeat constructor].
Qed.

Lemma feed_no_socket_event data w :
  Forall (fun e => is_socket_event e = false) (feed json_loads data w).2.
Proof.
  unfold feed. rewrite apply_steps_set_buffer. simpl snd.
  generalize (lines_rem (buffer w ++ data)).1 as ls. intros ls. revert w.
  induction ls as [|line rest IH]; intros w; [constructor|].
  cbn [fmap list_fmap apply_steps].
  change (list_fmap _ _ (line_effect json_loads) rest)
    with (line_effect json_loads <$> rest).
  destruct (line_effect json_loads line) as [rs logs] eqn:Hline.
  specialize (IH (published rs w)).
  destruct (apply_steps (line_effect json_loads <$> rest) (published rs w))
    as [w' evs]. simpl in *.
  apply Forall_app. split; [|apply Forall_app; split; [|exact IH]].
  - clear. generalize (heap w). induction rs as [|[s o] rs IH]; intros h;
      constructor; [reflexivity | apply IH].
  - pose proof (line_effect_no_socket_event line) as Hlogs.
    rewrite Hline in Hlogs. exact Hlogs.
Qed.

End AnyState.

(** ** The connection *)

Lemma socket_events_app evs1 evs2 :
  socket_events (evs1 ++ evs2) = socket_events evs1 ++ socket_events evs2.
Proof. apply List.filter_app. Qed.

Lemma socket_events_none evs :
  Forall (fun e => is_socket_event e = false) evs -> socket_events evs = [].
Proof.
  induction 1 as [|e rest He _ IH]; [reflexivity|].
  unfold socket_events in *. simpl. rewrite He. exact IH.
Qed.

Lemma socket_events_in e evs :
  In e (socket_events evs) <-> In e evs /\ is_socket_event e = true.
Proof. apply List.filter_In. Qed.

Lemma socket_of_event e s : socket_of e = Some s -> is_socket_event e = true.
Proof. destruct e; simpl; intros H; try discriminate; reflexivity. Qed.

Lemma feed_frame_connection json_loads data w :
  connected (feed json_loads data w).1 = connected w /\
  _thread (feed json_loads data w).1 = _thread w /\
  sockets_created (feed json_loads data w).1 = sockets_created w /\
  threads_started (feed json_loads data w).1 = threads_started w.
Proof.
  unfold feed. rewrite apply_steps_set_buffer. simpl.
  destruct (apply_steps_frame
              (line_effect json_loads <$> (lines_rem (buffer w ++ data)).1) w)
    as (_ & H2 & _ & H4 & _ & H6 & H7 & _).
  rewrite H2, H4, H6, H7. repeat split.
Qed.

Lemma reconnect_socket_events ms c w :
  socket_events (reconnect_events ms c w) = socket_events (connect_events c w).
Proof. destruct c; reflexivity. Qed.

Section Connection.

Variable json_loads : pystr -> option pyval.

(** What each operation does to the connection. *)
Lemma exec_conn o w :
  well_formed w ->
  exists w' evs,
    exec json_loads o w = (Ret tt, w', evs) /\ conn_step w w' evs.
Proof.
  intros (Hloc & [dv Hv] & [dq Hq]).
  destruct o as [c|close_ok|c|alive close_ok| |r c| | | ].
  - (* connect *)
    unfold exec, forget, bind. rewrite connect_eq.
    eexists _, _. split; [reflexivity|].
    apply (conn_connect _ _ _ c); try reflexivity.
    simpl. rewrite app_nil_r. reflexivity.
  - (* disconnect *)
    unfold exec, disconnect, bind, modify, gets, try_except, socket_close,
      emit, lift, logger, ret.
    unfold set_running, set_connected. simpl.
    destruct (socket w) as [s|] eqn:Hs; [destruct close_ok|];
      (eexists _, _; split; [reflexivity|]);
      [apply (conn_disconnect _ _ _ true) | apply (conn_disconnect _ _ _ false)
       | apply (conn_disconnect _ _ _ true)];
      unfold close_events; rewrite ?Hs; reflexivity.
  - (* start_streaming *)
    unfold exec, forget, start_streaming, bind, gets.
    destruct (_running w);
      [eexists _, _; split; [reflexivity|]; apply conn_same; reflexivity|].
    destruct (connected w) eqn:Hc;
      [eexists _, _; split; [reflexivity|]; apply conn_same; simpl; auto|].
    rewrite connect_eq.
    destruct c; (eexists _, _; split; [reflexivity|]);
      [apply (conn_connect _ _ _ SocketFailed)
      |apply (conn_connect _ _ _ ConnectFailed)
      |apply (conn_connect _ _ _ SendallFailed)
      |apply (conn_connect _ _ _ ConnectOk)]; reflexivity.
  - (* stop_streaming *)
    unfold exec, stop_streaming, disconnect, bind, modify, gets, try_except,
      socket_close, emit, lift, logger, ret.
    unfold set_running, set_connected. simpl.
    destruct (_thread w); [destruct alive|];
      (destruct (socket w) as [s|] eqn:Hs; [destruct close_ok|]);
      (eexists _, _; split; [reflexivity|]);
      first [ apply (conn_disconnect _ _ _ true);
              unfold close_events; rewrite ?Hs; reflexivity
            | apply (conn_disconnect _ _ _ false);
              unfold close_events; rewrite ?Hs; reflexivity ].
  - (* the loop is entered *)
    eexists _, _. split; [reflexivity|]. apply conn_same; reflexivity.
  - (* a pass of the loop *)
    unfold exec, bind, gets. destruct (_running w) eqn:Hrun;
      [|eexists _, _; split; [reflexivity|]; apply conn_same; reflexivity].
    destruct (pass_cases json_loads r c w) as (w' & evs & Hpass & Hcases).
    exists w', evs. split; [cbv beta iota; rewrite Hpass; destruct evs; reflexivity|].
    destruct Hcases as [(_ & -> & ->) | [(_ & _ & -> & ->)
      | [(_ & _ & -> & ->) | [(_ & _ & -> & ->) | (_ & data & _ & _ & -> & ->)]]]].
    + apply conn_same; reflexivity.
    + apply conn_same; reflexivity.
    + rewrite Hrun. apply (conn_connect _ _ _ c); try reflexivity.
      change (socket_events (reconnect_events 500 c w)
              = socket_events (connect_events c w)).
      apply reconnect_socket_events.
    + apply (conn_connect _ _ _ c); try reflexivity.
      change (socket_events (reconnect_events 1000 c w)
              = socket_events (connect_events c w)).
      apply reconnect_socket_events.
    + destruct (feed_frame json_loads data w) as (Hs & _ & _).
      destruct (feed_frame_connection json_loads data w) as (Hc & _ & Hn & _).
      apply conn_same; try assumption.
      apply socket_events_none, feed_no_socket_event.
  - (* get_latest_location *)
    eexists _, _. split; [reflexivity|]. apply conn_same; reflexivity.
  - (* get_latest_velocity *)
    unfold exec, forget, get_latest_velocity, dict_copy, bind, gets. simpl.
    rewrite Hv. simpl.
    eexists _, _. split; [reflexivity|]. apply conn_same; reflexivity.
  - (* get_latest_quality *)
    unfold exec, forget, get_latest_quality, dict_copy, bind, gets. simpl.
    rewrite Hq. simpl.
    eexists _, _. split; [reflexivity|]. apply conn_same; reflexivity.
Qed.

End Connection.

Lemma in_socket_events_app e evs evs' :
  is_socket_event e = true ->
  In e (evs ++ evs') <-> In e evs \/ In e (socket_events evs').
Proof.
  intros He. rewrite in_app_iff, socket_events_in. tauto.
Qed.

(** Each step keeps the invariant of the connection. *)
Lemma conn_inv_step w w' evs evs' :
  conn_inv w evs -> conn_step w w' evs' -> conn_inv w' (evs ++ evs').
Proof.
  intros (Hfresh & Hsock & Hconn) Hstep.
  assert (forall e s, In e evs' -> socket_of e = Some s -> In e (socket_events evs'))
    as Hse.
  { intros e s Hin Hs. apply socket_events_in. split; [exact Hin|].
    apply (socket_of_event e s Hs). }
  destruct Hstep as [Hs Hc Hn Hev | c Hs Hc Hn Hev | close_ok Hs Hc Hn Hev].
  - (* nothing happens to the connection *)
    assert (forall e, is_socket_event e = true -> In e (evs ++ evs') <-> In e evs)
      as Hin.
    { intros e He. rewrite (in_socket_events_app e evs evs' He), Hev. simpl. tauto. }
    split; [|split].
    + intros e s Hine Hse'. rewrite Hn. apply (Hfresh e s); [|exact Hse'].
      apply Hin; [apply (socket_of_event e s Hse') | exact Hine].
    + intros s Hs'. rewrite Hs in Hs'. destruct (Hsock s Hs') as [H1 H2].
      rewrite !Hin by reflexivity. split; assumption.
    + intros Hc'. rewrite Hc in Hc'. destruct (Hconn Hc') as (s & Hs' & H1 & H2).
      exists s. rewrite Hs, !Hin by reflexivity. auto.
  - (* connect *)
    assert (forall e, is_socket_event e = true ->
              In e (evs ++ evs') <->
              In e evs \/ In e (socket_events (connect_events c w))) as Hin.
    { intros e He. rewrite (in_socket_events_app e evs evs' He), Hev. tauto. }
    assert (forall s, ~ In (SockClose s) (socket_events (connect_events c w)))
      as Hnoclose.
    { intros s. destruct c; simpl; intuition discriminate. }
    assert (forall e s, In e (socket_events (connect_events c w)) ->
              socket_of e = Some s ->
              s = sockets_created w /\ creates_socket c = true) as Hnew.
    { intros e s. destruct c; simpl; intros H;
        repeat (destruct H as [<-|H]; [simpl; intros [= <-]; auto|]);
        destruct H. }
    split; [|split].
    + intros e s Hine Hse'.
      apply Hin in Hine; [|apply (socket_of_event e s Hse')].
      rewrite Hn. destruct Hine as [Hine|Hine].
      * specialize (Hfresh e s Hine Hse'). destruct c; simpl; lia.
      * destruct (Hnew e s Hine Hse') as [-> Hc']. destruct c; simpl; try lia.
        discriminate Hc'.
    + intros s Hs'. rewrite Hs in Hs'. rewrite !Hin by reflexivity.
      destruct c; simpl in Hs'.
      * destruct (Hsock s Hs') as [H1 H2]. split; [left; exact H1|].
        intros [H|H]; [exact (H2 H) | exact (Hnoclose _ H)].
      * injection Hs' as <-. split; [right; simpl; auto|].
        intros [H|H]; [|exact (Hnoclose _ H)].
        specialize (Hfresh _ _ H eq_refl). lia.
      * injection Hs' as <-. split; [right; simpl; auto|].
        intros [H|H]; [|exact (Hnoclose _ H)].
        specialize (Hfresh _ _ H eq_refl). lia.
      * injection Hs' as <-. split; [right; simpl; auto|].
        intros [H|H]; [|exact (Hnoclose _ H)].
        specialize (Hfresh _ _ H eq_refl). lia.
    + intros Hc'. rewrite Hc in Hc'. rewrite Hs.
      destruct c; simpl in Hc'; try discriminate Hc'.
      exists (sockets_created w). rewrite !Hin by reflexivity.
      split; [reflexivity|]. split; right; simpl; auto.
  - (* disconnect *)
    split; [|split].
    + intros e s Hine Hse'. rewrite Hn.
      apply in_app_iff in Hine as [Hine|Hine]; [exact (Hfresh e s Hine Hse')|].
      specialize (Hse e s Hine Hse'). rewrite Hev in Hse. unfold close_events in Hse.
      destruct (socket w) as [s0|] eqn:Hs0; [|destruct Hse].
      destruct close_ok; [|destruct Hse].
      destruct Hse as [<-|[]]. injection Hse' as <-.
      destruct (Hsock s0 eq_refl) as [Hcreated _].
      exact (Hfresh _ _ Hcreated eq_refl).
    + intros s Hs'. rewrite Hs in Hs'. discriminate Hs'.
    + intros Hc'. rewrite Hc in Hc'. discriminate Hc'.
Qed.

(** X7. While [connected] is set the client holds a socket on which it
    has made the connection and sent the WATCH command, and which it has
    not closed; and whatever socket it holds, it has created and not
    closed. This holds after any sequence of operations on a new client,
    whatever the socket answers. *)
Theorem connected_means_watching (json_loads : pystr -> option pyval)
    (ops : list op) :
  exists w evs,
    run json_loads ops init = (Ret tt, w, evs) /\
    (forall s, socket w = Some s ->
       In (SockCreate s) evs /\ ~ In (SockClose s) evs) /\
    (connected w = true ->
     exists s,
       socket w = Some s /\
       In (SockConnect s) evs /\
       In (SockSendall s watch_cmd) evs /\
       ~ In (SockClose s) evs).
Proof.
  destruct (run_invariant json_loads conn_inv)
    with (ops := ops) (w := init) (evs0 := @nil event)
    as (w & evs & Hrun & _ & (_ & Hsock & Hconn)).
  - intros o w evs w' evs' Hwf Hinv Hexec.
    destruct (exec_conn json_loads o w Hwf) as (w1 & e1 & Hexec1 & Hstep).
    rewrite Hexec in Hexec1. injection Hexec1 as <- <-.
    exact (conn_inv_step w w' evs evs' Hinv Hstep).
  - exact init_well_formed.
  - split; [intros e s []|]. split; [intros s [=] | intros [=]].
  - simpl in Hsock, Hconn. exists w, evs. split; [exact Hrun|].
    split; [exact Hsock|].
    intros Hc. destruct (Hconn Hc) as (s & Hs & H1 & H2).
    exists s. destruct (Hsock s Hs) as [_ H3]. auto.
Qed.

(** ** The loop, whatever it is given *)

Lemma count_events_app p evs1 evs2 :
  count_events p (evs1 ++ evs2) = (count_events p evs1 + count_events p evs2)%nat.
Proof. unfold count_events. rewrite List.filter_app, length_app. reflexivity. Qed.

Lemma connect_creates c w :
  count_events is_create (connect_events c w) = (if creates_socket c then 1 else 0)%nat /\
  sockets_created (connect_world c w) =
    (sockets_created w + (if creates_socket c then 1 else 0))%nat /\
  Forall (fun e => is_close e = false) (connect_events c w).
Proof. destruct c; simpl; repeat split; try lia; repeat constructor. Qed.

Lemma reconnect_creates ms c w :
  count_events is_create (reconnect_events ms c w) = (if creates_socket c then 1 else 0)%nat /\
  Forall (fun e => is_close e = false) (reconnect_events ms c w).
Proof. destruct c; simpl; repeat split; repeat constructor. Qed.

Lemma no_socket_event_count evs :
  Forall (fun e => is_socket_event e = false) evs ->
  count_events is_create evs = 0%nat /\ Forall (fun e => is_close e = false) evs.
Proof.
  induction 1 as [|e rest He _ [IH1 IH2]]; [split; [reflexivity | constructor]|].
  split.
  - unfold count_events in *. simpl. destruct e; try discriminate He; exact IH1.
  - constructor; [destruct e; try discriminate He; reflexivity | exact IH2].
Qed.

Section AnyInput.

Variable json_loads : pystr -> option pyval.

(** A pass through the body in any state: it returns normally, leaves
    [_running] and the thread alone, closes no socket, and the counter
    of the sockets follows the sockets it creates. *)
Lemma pass_any r c w :
  exists w' evs,
    _gps_loop_body json_loads r c w = (Ret tt, w', evs) /\
    _running w' = _running w /\
    _thread w' = _thread w /\
    (socket w <> None -> socket w' <> None) /\
    Forall (fun e => is_close e = false) evs /\
    sockets_created w' = (sockets_created w + count_events is_create evs)%nat /\
    (_running w = true -> socket w <> None -> lost_connection r ->
     count_events is_create evs = (if creates_socket c then 1 else 0)%nat).
Proof.
  destruct (pass_cases json_loads r c w) as (w' & evs & Hpass & Hcases).
  exists w', evs. split; [exact Hpass|].
  destruct (connect_world_frame c w) as (Hr & Ht & _ & _ & _ & _ & _ & _ & Hsock).
  destruct (connect_creates c w) as (_ & Hn & _).
  assert (forall msg ms,
            count_events is_create (Log WARNING msg :: reconnect_events ms c w)
            = (if creates_socket c then 1 else 0)%nat /\
            Forall (fun e => is_close e = false)
              (Log WARNING msg :: reconnect_events ms c w)) as Hrec.
  { intros msg ms. destruct (reconnect_creates ms c w) as [Hcount Hclose].
    split; [exact Hcount | constructor; [reflexivity | exact Hclose]]. }
  destruct Hcases as [(Hs & -> & ->) | [(_ & -> & -> & ->)
    | [(_ & (e & He & Hne) & -> & ->) | [(_ & Hd & -> & ->)
    | (_ & data & Hd & Hne & -> & ->)]]]].
  - split; [reflexivity|]. split; [reflexivity|]. split; [auto|].
    split; [repeat constructor|]. split; [unfold count_events; simpl; lia|].
    intros _ Hsome. contradiction.
  - split; [reflexivity|]. split; [reflexivity|]. split; [auto|].
    split; [constructor|]. split; [unfold count_events; simpl; lia|].
    intros _ _ Hlost. unfold lost_connection in Hlost. simpl in Hlost.
    congruence.
  - destruct (_running w) eqn:Hrun.
    + destruct (Hrec "Socket read error"%string 500) as [Hcount Hclose].
      split; [exact Hr|]. split; [exact Ht|]. split; [exact Hsock|].
      split; [exact Hclose|]. split; [rewrite Hcount; exact Hn|].
      intros _ _ _. exact Hcount.
    + split; [exact Hrun|]. split; [reflexivity|]. split; [auto|].
      split; [repeat constructor|]. split; [unfold count_events; simpl; lia|].
      intros Hfalse. discriminate Hfalse.
  - destruct (Hrec "No data from gpsd, reconnecting..."%string 1000)
      as [Hcount Hclose].
    split; [exact Hr|]. split; [exact Ht|]. split; [exact Hsock|].
    split; [exact Hclose|]. split; [rewrite Hcount; exact Hn|].
    intros _ _ _. exact Hcount.
  - destruct (feed_frame json_loads data w) as (Hfs & Hfr & _).
    destruct (feed_frame_connection json_loads data w) as (_ & Hft & Hfn & _).
    destruct (no_socket_event_count _ (feed_no_socket_event json_loads data w))
      as [Hcount Hclose].
    split; [exact Hfr|]. split; [exact Hft|]. split; [rewrite Hfs; auto|].
    split; [exact Hclose|]. split; [rewrite Hfn, Hcount; lia|].
    intros _ _ Hlost. unfold lost_connection in Hlost. rewrite Hd in Hlost.
    contradiction.
Qed.

(** The passes of the loop, in any state and for any answers of the
    environment. *)
Lemma loop_any inputs :
  forall w,
    exists w' evs,
      _gps_loop_from json_loads inputs w = (Ret tt, w', evs) /\
      _running w' = _running w /\
      _thread w' = _thread w /\
      (socket w <> None -> socket w' <> None) /\
      Forall (fun e => is_close e = false) evs /\
      sockets_created w' = (sockets_created w + count_events is_create evs)%nat /\
      (_running w = true -> socket w <> None ->
       Forall (fun rc => lost_connection rc.1) inputs ->
       count_events is_create evs =
       length (List.filter (fun rc => creates_socket rc.2) inputs)).
Proof.
  induction inputs as [|[r c] rest IH]; intros w.
  - exists w, []. split; [reflexivity|]. split; [reflexivity|].
    split; [reflexivity|]. split; [auto|]. split; [constructor|].
    split; [unfold count_events; simpl; lia|]. reflexivity.
  - cbn [_gps_loop_from]. unfold bind at 1. unfold gets at 1.
    destruct (_running w) eqn:Hrun.
    + destruct (pass_any r c w) as (w1 & e1 & Hpass & Hr1 & Ht1 & Hs1 & Hc1 & Hn1 & Hx1).
      destruct (IH w1) as (w2 & e2 & Hloop & Hr2 & Ht2 & Hs2 & Hc2 & Hn2 & Hx2).
      exists w2, (e1 ++ e2). unfold bind at 1. rewrite Hpass, Hloop.
      split; [reflexivity|].
      split; [congruence|]. split; [congruence|]. split; [auto|].
      split; [apply Forall_app; auto|].
      split; [rewrite count_events_app; lia|].
      intros _ Hsome Hall. apply Forall_cons in Hall as [Hlost Hall].
      rewrite count_events_app, (Hx1 Hrun Hsome Hlost), Hx2; auto; [|congruence].
      cbn [List.filter snd]. destruct (creates_socket c); simpl; lia.
    + exists w, []. split; [reflexivity|]. split; [exact Hrun|].
      split; [reflexivity|]. split; [auto|]. split; [constructor|].
      split; [unfold count_events; simpl; lia|].
      intros Hfalse. discriminate Hfalse.
Qed.

End AnyInput.

(** X8. Nothing the loop is given can end it: in any state, for any
    sequence of answers of the socket (data of any content, read errors,
    timeouts, a closed peer) and of the connection attempts, the passes of
    [_gps_loop] all return normally, no exception leaves the loop, and
    [_running] and the thread are as before. Only [stop_streaming] ends
    the loop. *)
Theorem loop_survives_any_input (json_loads : pystr -> option pyval)
    (inputs : list (recv_result * connect_result)) (w : world) :
  exists w' evs,
    _gps_loop json_loads inputs w = (Ret tt, w', evs) /\
    _running w' = _running w /\
    _thread w' = _thread w.
Proof.
  destruct (loop_any json_loads inputs (set_buffer [] w))
    as (w' & evs & Hloop & Hr & Ht & _).
  exists w', evs. split; [|split; assumption].
  unfold _gps_loop, bind, modify. rewrite Hloop. reflexivity.
Qed.

(** X9. The loop never calls [close]. While it is running with a
    socket and every pass finds the connection lost, each connection
    attempt that gets as far as creating a socket puts a new socket in
    the place of the current one: the trace has one [socket.socket] call
    for each such pass and no [close] at all, so the replaced sockets are
    left to the garbage collector. *)
Theorem loop_never_closes_a_socket (json_loads : pystr -> option pyval)
    (inputs : list (recv_result * connect_result)) (w : world) (s : nat) :
  _running w = true ->
  socket w = Some s ->
  Forall (fun rc => lost_connection rc.1) inputs ->
  exists w' evs,
    _gps_loop_from json_loads inputs w = (Ret tt, w', evs) /\
    Forall (fun e => is_close e = false) evs /\
    count_events is_create evs =
      length (List.filter (fun rc => creates_socket rc.2) inputs) /\
    sockets_created w' =
      (sockets_created w +
       length (List.filter (fun rc => creates_socket rc.2) inputs))%nat.
Proof.
  intros Hrun Hs Hall.
  destruct (loop_any json_loads inputs w)
    as (w' & evs & Hloop & _ & _ & _ & Hclose & Hn & Hcount).
  assert (socket w <> None) as Hsome by (rewrite Hs; discriminate).
  specialize (Hcount Hrun Hsome Hall).
  exists w', evs. rewrite <- Hcount. auto.
Qed.

Lemma loop_never_closes_a_socket_witness :
  exists w' evs,
    _gps_loop_from Sample.json_loads
      [(RecvData [], ConnectOk); (RecvError, ConnectFailed);
       (RecvData [], SocketFailed)] Sample.streaming = (Ret tt, w', evs) /\
    Forall (fun e => is_close e = false) evs /\
    count_events is_create evs = 2%nat /\
    sockets_created w' = 3%nat.
Proof.
  destruct (loop_never_closes_a_socket Sample.json_loads
              [(RecvData [], ConnectOk); (RecvError, ConnectFailed);
               (RecvData [], SocketFailed)] Sample.streaming 0%nat)
    as (w' & evs & H1 & H2 & H3 & H4).
  - reflexivity.
  - reflexivity.
  - repeat constructor; unfold lost_connection; simpl; discriminate.
  - exists w', evs. split; [exact H1|]. split; [exact H2|].
    split; [exact H3 | exact H4].
Defined.

(** ** What a message can touch *)

Lemma decode_tpv_kinds data rs :
  decode_tpv data = Ok rs ->
  Forall (fun r : report => In r.1 [gps_location; gps_velocity]) rs.
Proof.
  unfold decode_tpv.
  destruct (py_lt _ 2) as [[|]|]; try discriminate.
  - intros [= <-]. constructor.
  - destruct (py_ge _ 3) as [fix3d|]; try discriminate. intros [= <-].
    apply Forall_app. split.
    + destruct (_ && _); constructor; [simpl; auto | constructor].
    + destruct (_ || _); constructor; [simpl; auto | constructor].
Qed.

Lemma decode_sky_kinds data rs :
  decode_sky data = Ok rs -> Forall (fun r : report => In r.1 [gps_quality]) rs.
Proof.
  unfold decode_sky.
  destruct (py_len _); try discriminate.
  destruct (py_iter _); try discriminate.
  destruct (count_used _); try discriminate.
  intros [= <-]. constructor; [simpl; auto | constructor].
Qed.

Lemma decode_line_kinds json_loads message :
  Forall (fun r : report => In r.1 (kinds_of json_loads message))
    (decode_line json_loads message).1 /\
  (forall subj a, ~ In (OnNext subj a) (decode_line json_loads message).2).
Proof.
  unfold decode_line, kinds_of.
  destruct (json_loads message) as [[ | | | | | |d]|];
    try solve [split; [constructor | intros subj a [H|[]]; discriminate H]].
  destruct (py_eq_str _ (str "TPV")).
  - destruct (decode_tpv d) as [rs|e] eqn:H.
    + split; [apply (decode_tpv_kinds _ _ H) | intros subj a []].
    + split; [constructor | intros subj a [H'|[]]; destruct e; discriminate H'].
  - destruct (py_eq_str _ (str "SKY")).
    + destruct (decode_sky d) as [rs|e] eqn:H.
      * split; [apply (decode_sky_kinds _ _ H) | intros subj a []].
      * split; [constructor | intros subj a [H'|[]]; destruct e; discriminate H'].
    + split; [constructor | intros subj a []].
Qed.

(** X10. A message touches only the slots of its class. Whatever the
    text, [_process_gps_message] returns normally; a TPV object can
    change and deliver only the location and the velocity, a SKY object
    only the quality, and any other message (an object of another class,
    such as the VERSION, DEVICES and WATCH objects gpsd sends first, JSON
    that is not an object, or text that is not JSON) changes nothing at
    all and delivers nothing. *)
Theorem message_touches_only_its_slots (json_loads : pystr -> option pyval)
    (message : pystr) (w : world) :
  exists w' evs,
    _process_gps_message json_loads message w = (Ret tt, w', evs) /\
    (forall subj,
       ~ In subj (kinds_of json_loads message) ->
       slot_addr subj w' = slot_addr subj w /\
       forall a, ~ In (OnNext subj a) evs) /\
    (kinds_of json_loads message = [] ->
     w' = w /\ Forall (fun e => is_delivery e = false) evs).
Proof.
  rewrite _process_gps_message_decode.
  destruct (decode_line_kinds json_loads message) as [Hkinds Hlogs].
  eexists _, _. split; [reflexivity|]. split.
  - intros subj Hsubj.
    assert (forall o, ~ In (subj, o) (decode_line json_loads message).1) as Hnone.
    { intros o Hin. rewrite Forall_forall in Hkinds.
      apply Hsubj. apply (Hkinds (subj, o)). apply list_elem_of_In. exact Hin. }
    split.
    + destruct (published_slot (decode_line json_loads message).1 subj w)
        as [[Hsame _] | (a & o & _ & _ & Hin & _)]; [exact Hsame|].
      destruct (Hnone o Hin).
    + intros a Hin. apply in_app_iff in Hin as [Hin|Hin].
      * destruct (published_events_in _ _ _ _ Hin) as [o Ho].
        exact (Hnone o Ho).
      * exact (Hlogs subj a Hin).
  - intros Hnil. rewrite Hnil in Hkinds.
    destruct (decode_line json_loads message) as [rs logs]. simpl in *.
    destruct rs as [|r rs].
    + split; [reflexivity|]. simpl. apply Forall_forall. intros e He.
      apply list_elem_of_In in He.
      destruct e; try reflexivity. destruct (Hlogs _ _ He).
    + apply Forall_cons in Hkinds as [[] _].
Qed.

(** ** Streaming *)

Section Streaming.

Variable json_loads : pystr -> option pyval.


(** Once [_running] is cleared the loop does nothing more. *)
Lemma loop_stopped inputs w :
  _running w = false ->
  _gps_loop_from json_loads inputs w = (Ret tt, w, []).
Proof.
  intros Hrun. destruct inputs as [|[r c] rest]; [reflexivity|].
  cbn [_gps_loop_from]. unfold bind at 1. unfold gets at 1. rewrite Hrun.
  reflexivity.
Qed.

End Streaming.



(** X12. [stop_streaming] ends the loop and drops the connection, in
    any state: it returns normally even when [close] fails, [_running]
    and [connected] are cleared and the socket is gone, after at most one
    [close], on the socket the client held. The cache and the thread
    handle stay as they were. From then on the loop does nothing at its
    next test of [_running], whatever is waiting on the socket. *)
Theorem stop_streaming_ends_the_loop (json_loads : pystr -> option pyval)
    (alive close_ok : bool) (w : world) :
  exists w' evs,
    stop_streaming alive close_ok w = (Ret tt, w', evs) /\
    _running w' = false /\
    connected w' = false /\
    socket w' = None /\
    _thread w' = _thread w /\
    heap w' = heap w /\
    (forall subj, slot_addr subj w' = slot_addr subj w) /\
    socket_events evs = close_events close_ok w /\
    (forall inputs, _gps_loop_from json_loads inputs w' = (Ret tt, w', [])).
Proof.
  assert (exists w' evs,
            stop_streaming alive close_ok w = (Ret tt, w', evs) /\
            _running w' = false /\ connected w' = false /\ socket w' = None /\
            _thread w' = _thread w /\ heap w' = heap w /\
            (forall subj, slot_addr subj w' = slot_addr subj w) /\
            socket_events evs = close_events close_ok w)
    as (w' & evs & Hstop & Hr & Hc & Hs & Ht & Hh & Hslot & Hev).
  { unfold stop_streaming, disconnect, bind, modify, gets, try_except,
      socket_close, emit, lift, logger, ret, close_events.
    unfold set_running, set_connected. simpl.
    destruct (_thread w); [destruct alive|];
      (destruct (socket w); [destruct close_ok|]);
      (eexists _, _; split; [reflexivity|]); simpl;
      repeat (split; [first [reflexivity | intros subj; destruct subj; reflexivity]|]);
      reflexivity. }
  exists w', evs. repeat (split; [assumption|]).
  intros inputs. apply loop_stopped. exact Hr.
Qed.

(** X13. A stop request that arrives while a pass is under way
    ([_running] cleared, the socket still there) keeps the pass from
    reconnecting after a read error, which is only logged; but not after
    a read of no bytes: the pass then still waits a second and makes its
    connection attempt, and a successful one leaves [connected] set. *)
Theorem stop_request_during_read (json_loads : pystr -> option pyval)
    (r : recv_result) (c : connect_result) (w : world) (s : nat) :
  _running w = false ->
  socket w = Some s ->
  lost_connection r ->
  exists w' evs,
    _gps_loop_body json_loads r c w = (Ret tt, w', evs) /\
    match recv_decode r with
    | Err _ =>
        w' = w /\ evs = [Log WARNING "Socket read error"]
    | Ok _ =>
        w' = connect_world c w /\
        evs = Log WARNING "No data from gpsd, reconnecting..." ::
              reconnect_events 1000 c w /\
        connect_attempts evs = 1%nat /\
        connected w' = connect_ok c
    end.
Proof.
  intros Hrun Hs Hlost. unfold lost_connection in Hlost.
  destruct (recv_decode r) as [data|e] eqn:Hrecv.
  - subst data. rewrite (pass_peer_closed json_loads r c w s Hs Hrecv).
    eexists _, _. split; [reflexivity|]. split; [reflexivity|].
    split; [reflexivity|]. split; destruct c; reflexivity.
  - rewrite (pass_read_error json_loads r c w s e Hs Hrecv Hlost), Hrun.
    eexists _, _. split; [reflexivity|]. split; reflexivity.
Qed.

Lemma stop_request_during_read_witness :
  exists w' evs,
    _gps_loop_body Sample.json_loads (RecvData []) ConnectOk
      (set_running false Sample.streaming) = (Ret tt, w', evs) /\
    connect_attempts evs = 1%nat /\
    connected w' = true /\
    _running w' = false.
Proof.
  destruct (stop_request_during_read Sample.json_loads (RecvData []) ConnectOk
              (set_running false Sample.streaming) 0%nat)
    as (w' & evs & H1 & H2).
  - reflexivity.
  - reflexivity.
  - reflexivity.
  - simpl in H2. destruct H2 as (Hw & _ & H3 & H4).
    exists w', evs. split; [exact H1|]. split; [exact H3|].
    split; [exact H4|]. rewrite Hw. reflexivity.
Defined.

(** X14. [start_streaming] returns exactly whether the loop is running
    after the call: [True] when it was running already, when the client
    was connected, or when the connection attempt succeeds, and [False]
    only when it was neither running nor connected and the attempt
    fails. A connection attempt is made only when the client was neither
    running nor connected, and a thread is started only when the loop was
    not running and the call returns [True]. *)
Theorem start_streaming_result (c : connect_result) (w : world) :
  exists w' evs,
    start_streaming c w =
      (Ret (_running w || connected w || connect_ok c), w', evs) /\
    _running w' = _running w || connected w || connect_ok c /\
    connect_attempts evs =
      (if negb (_running w) && negb (connected w) then 1 else 0)%nat /\
    count_events is_thread_start evs =
      (if negb (_running w) && (connected w || connect_ok c) then 1 else 0)%nat /\
    (_running w = false -> connected w || connect_ok c = true ->
     _thread w' = Some (threads_started w) /\
     threads_started w' = S (threads_started w) /\
     connected w' = true).
Proof.
  unfold start_streaming, bind, gets.
  destruct (_running w) eqn:Hrun.
  - eexists _, _. split; [reflexivity|]. simpl. split; [exact Hrun|].
    split; [reflexivity|]. split; [reflexivity|]. intros Hfalse.
    discriminate Hfalse.
  - destruct (connected w) eqn:Hc.
    + eexists _, _. split; [reflexivity|]. simpl.
      split; [reflexivity|]. split; [reflexivity|]. split; [reflexivity|].
      intros _ _. split; [reflexivity|]. split; [reflexivity | exact Hc].
    + rewrite connect_eq.
      destruct c; (eexists _, _; split; [reflexivity|]); simpl;
        (split; [first [reflexivity | exact Hrun]|]);
        (split; [reflexivity|]); (split; [reflexivity|]);
        intros _ Hok; try discriminate Hok;
        split; [reflexivity|]; split; reflexivity.
Qed.

(** ** Nothing is lost in the buffer *)

(** The lines and the remainder of a text make up the text again, and a
    line feed is in none of them. *)
Lemma lines_rem_join s :
  s = concat ((fun l => l ++ [NL]) <$> (lines_rem s).1) ++ (lines_rem s).2 /\
  Forall (fun l => contains_nl l = false) (lines_rem s).1.
Proof.
  induction s as [|ch r [IHjoin IHnl]]; [split; [reflexivity | constructor]|].
  simpl. destruct (lines_rem r) as [ls rem]. simpl in IHjoin, IHnl.
  destruct (ch =? NL) eqn:Hc.
  - apply Z.eqb_eq in Hc. subst ch. split.
    + simpl. f_equal. exact IHjoin.
    + constructor; [reflexivity | exact IHnl].
  - destruct ls as [|l ls'].
    + split; [|constructor]. simpl in *. f_equal. exact IHjoin.
    + apply Forall_cons in IHnl as [Hl Hls]. split.
      * simpl in *. f_equal. exact IHjoin.
      * constructor; [|exact Hls].
        change (contains_nl (ch :: l)) with ((NL =? ch) || contains_nl l).
        rewrite Z.eqb_sym, Hc, Hl. reflexivity.
Qed.

(** X15. The buffer loses no character and repeats none. A pass that
    receives some text hands the decoder a list of lines, none with a
    line feed in it, and keeps a remainder without a line feed, such that
    the lines, each followed by a line feed, and then the remainder are
    exactly the old buffer followed by the text received; what the pass
    delivers are the reports of these lines, in order. *)
Theorem buffering_loses_nothing (json_loads : pystr -> option pyval)
    (r : recv_result) (c : connect_result) (w : world) (s : nat) (data : pystr) :
  socket w = Some s ->
  recv_decode r = Ok data ->
  data <> [] ->
  exists ls w' evs,
    _gps_loop_body json_loads r c w = (Ret tt, w', evs) /\
    buffer w ++ data = concat ((fun l => l ++ [NL]) <$> ls) ++ buffer w' /\
    Forall (fun l => contains_nl l = false) ls /\
    contains_nl (buffer w') = false /\
    delivered (heap w') evs = concat (line_reports json_loads <$> ls).
Proof.
  intros Hs Hr Hd.
  rewrite (pass_data json_loads r c w s data Hs Hr Hd).
  exists (lines_rem (buffer w ++ data)).1. eexists _, _.
  split; [reflexivity|].
  destruct (feed_frame json_loads data w) as (_ & _ & Hbuf).
  destruct (lines_rem_join (buffer w ++ data)) as [Hjoin Hnl].
  destruct (feed_delivered json_loads data w) as [Hdel _].
  rewrite Hbuf. split; [exact Hjoin|]. split; [exact Hnl|].
  split; [apply lines_rem_rest | exact Hdel].
Qed.

Lemma buffering_loses_nothing_witness :
  exists ls w' evs,
    _gps_loop_body Sample.json_loads
      (RecvData (Sample.tpv_read2 ++ Sample.tpv_read3)) ConnectOk
      Sample.with_partial_line = (Ret tt, w', evs) /\
    buffer Sample.with_partial_line
      ++ (byte_val <$> Sample.tpv_read2 ++ Sample.tpv_read3) =
      concat ((fun l => l ++ [NL]) <$> ls) ++ buffer w' /\
    Forall (fun l => contains_nl l = false) ls /\
    contains_nl (buffer w') = false /\
    delivered (heap w') evs = concat (line_reports Sample.json_loads <$> ls).
Proof.
  apply (buffering_loses_nothing Sample.json_loads
           (RecvData (Sample.tpv_read2 ++ Sample.tpv_read3))
           ConnectOk Sample.with_partial_line 0%nat
           (byte_val <$> Sample.tpv_read2 ++ Sample.tpv_read3)).
  - reflexivity.
  - vm_compute. reflexivity.
  - discriminate.
Defined.

(** ** The module wrapper *)

(** X16. [GPSModule._publish_quality] cannot take a quality report
    without [hdop]. For the dict that [_process_sky] builds from a SKY
    object whose [hdop] is absent or null, the method never returns
    normally, whatever [json.dumps], the formatting of numbers and the
    output do: when the report has been stored and published, the field
    [{quality.get('hdop', 0):.1f}] of the debug message raises
    [TypeError], since the key is there with the value [None]. *)
Theorem publish_quality_needs_hdop
    (json_dumps : gmap pystr pyval -> result pystr)
    (py_str : pyval -> pystr)
    (format_value : pyval -> string -> result pystr)
    (publish : call_result)
    (data quality : gmap pystr pyval) (m : gps_module) :
  decode_sky data = Ok [(gps_quality, ObjDict quality)] ->
  dict_get data (str "hdop") PyNone = PyNone ->
  exists e evs,
    _publish_quality json_dumps py_str format_value publish quality m =
      (Raise e, set_module_latest_quality quality m, evs) /\
    forall quality_str,
      json_dumps quality = Ok quality_str ->
      publish = Returns ->
      e = TypeError /\ evs = [Publish gps_quality quality_str].
Proof.
  intros Hsky Hhdop. unfold decode_sky in Hsky.
  destruct (py_len _) as [n_sats|]; try discriminate.
  destruct (py_iter _) as [sats|]; try discriminate.
  destruct (count_used sats) as [n_used|]; try discriminate.
  injection Hsky as <-. rewrite Hhdop.
  unfold _publish_quality.
  assert (dict_get (quality_dict n_sats n_used PyNone
                      (dict_get data (str "vdop") PyNone)
                      (dict_get data (str "pdop") PyNone))
            (str "hdop") (PyInt 0) = PyNone) as -> by reflexivity.
  destruct (json_dumps _) as [quality_str|e] eqn:Hdumps.
  - destruct publish as [|e].
    + eexists _, _. split; [reflexivity|].
      intros text [= <-] _. split; reflexivity.
    + eexists _, _. split; [reflexivity|]. intros text _ [=].
  - eexists _, _. split; [reflexivity|]. intros text [=].
Qed.

Lemma publish_quality_needs_hdop_witness :
  exists e evs,
    decode_sky (<[str "class" := PyStr (str "SKY")]>
                  (<[str "satellites" := PyList [Sample.sat true]]> ∅))
      = Ok [(gps_quality, ObjDict (quality_dict 1 1 PyNone PyNone PyNone))] /\
    _publish_quality (fun _ => Ok (str "{}")) (fun _ => str "1")
      (fun _ _ => Ok (str "0.0")) Returns
      (quality_dict 1 1 PyNone PyNone PyNone) (GPSModule None ∅ ∅) =
      (Raise e,
       set_module_latest_quality (quality_dict 1 1 PyNone PyNone PyNone)
         (GPSModule None ∅ ∅),
       evs) /\
    e = TypeError /\
    evs = [Publish gps_quality (str "{}")].
Proof.
  assert (decode_sky (<[str "class" := PyStr (str "SKY")]>
                        (<[str "satellites" := PyList [Sample.sat true]]> ∅))
          = Ok [(gps_quality, ObjDict (quality_dict 1 1 PyNone PyNone PyNone))])
    as Hsky by (vm_compute; reflexivity).
  destruct (publish_quality_needs_hdop (fun _ => Ok (str "{}")) (fun _ => str "1")
              (fun _ _ => Ok (str "0.0")) Returns
              (<[str "class" := PyStr (str "SKY")]>
                 (<[str "satellites" := PyList [Sample.sat true]]> ∅))
              (quality_dict 1 1 PyNone PyNone PyNone)
              (GPSModule None ∅ ∅) Hsky eq_refl)
    as (e & evs & Hrun & Hwhy).
  destruct (Hwhy (str "{}") eq_refl eq_refl) as [He Hevs].
  exists e, evs. split; [exact Hsky|]. split; [exact Hrun|].
  split; [exact He | exact Hevs].
Defined.
